(** * ste-chat: the agent orchestration core

    A shallow embedding of [src/services/agent_service.py] (the tool
    registry, the tool-call parser, the dispatcher and the two-pass
    orchestrator) together with the slice of the Python runtime it rests
    on: [str] methods, the two regular expressions handed to [re.findall],
    insertion-ordered [dict]s, exceptions, the wall clock and the LLM
    collaborator of [src/services/llm_service.py].

    Text is a Rocq [string]; a character is read as the Unicode code point
    of the same number, so the model covers every Python [str] over
    U+0000..U+00FF and the character classes below are the tables CPython
    uses on that range.

    Further parts cover what surrounds that core: the request
    [GeminiService.generate_response] builds for the provider
    ([src/services/llm_service.py]), the chat loop of [main] ([app.py]),
    and the way the tools' methods take their arguments
    ([src/services/data_analyzer.py]); what the methods compute from the
    data frame is left abstract. *)

From Stdlib Require Import String Ascii List Bool Arith NArith ZArith Lia.
From Stdlib Require Import DecimalString.
Import ListNotations.
Local Open Scope string_scope.
Local Open Scope list_scope.

(* ================================================================== *)
(** * Python strings *)
(* ================================================================== *)

Module Py.

Definition code (c : ascii) : N := N_of_ascii c.

Definition between (lo hi : N) (c : ascii) : bool :=
  (lo <=? code c)%N && (code c <=? hi)%N.

(** [Py_UNICODE_ISSPACE]: what [str.strip()], [str.isspace()] and the
    pattern [\s] accept. *)
Definition isspace (c : ascii) : bool :=
  between 9 13 c || between 28 32 c || (code c =? 133)%N || (code c =? 160)%N.

(** [str.isdecimal()]: category Nd. *)
Definition isdecimal (c : ascii) : bool := between 48 57 c.

(** [str.isdigit()] on one character: the decimal digits and the
    superscripts U+00B2, U+00B3, U+00B9. *)
Definition isdigit_char (c : ascii) : bool :=
  isdecimal c || (code c =? 178)%N || (code c =? 179)%N || (code c =? 185)%N.

(** [str.isalnum()] on one character. *)
Definition isalnum (c : ascii) : bool :=
  between 48 57 c || between 65 90 c || between 97 122 c
  || (code c =? 170)%N || (code c =? 178)%N || (code c =? 179)%N
  || (code c =? 181)%N || (code c =? 185)%N || (code c =? 186)%N
  || between 188 190 c || between 192 214 c || between 216 246 c
  || between 248 255 c.

(** The pattern [\w] of a [str] pattern: alphanumeric or underscore. *)
Definition isword (c : ascii) : bool := isalnum c || (code c =? 95)%N.

(** [str.lower()] on one character. *)
Definition lower_char (c : ascii) : ascii :=
  if between 65 90 c || between 192 214 c || between 216 222 c
  then ascii_of_N (code c + 32) else c.

Fixpoint lower (s : string) : string :=
  match s with
  | EmptyString => EmptyString
  | String c s' => String (lower_char c) (lower s')
  end.

Fixpoint forallb_str (p : ascii -> bool) (s : string) : bool :=
  match s with
  | EmptyString => true
  | String c s' => p c && forallb_str p s'
  end.

(** [s.isdigit()]: non-empty and every character a digit. *)
Definition isdigit (s : string) : bool :=
  match s with
  | EmptyString => false
  | _ => forallb_str isdigit_char s
  end.

Fixpoint lstrip (p : ascii -> bool) (s : string) : string :=
  match s with
  | EmptyString => EmptyString
  | String c s' => if p c then lstrip p s' else s
  end.

Fixpoint rstrip (p : ascii -> bool) (s : string) : string :=
  match s with
  | EmptyString => EmptyString
  | String c s' =>
      match rstrip p s' with
      | EmptyString => if p c then EmptyString else String c EmptyString
      | r => String c r
      end
  end.

(** [s.strip()] *)
Definition strip (s : string) : string := rstrip isspace (lstrip isspace s).

(** [s.strip(chars)] for a one-character [chars]. *)
Definition strip_char (q : ascii) (s : string) : string :=
  rstrip (Ascii.eqb q) (lstrip (Ascii.eqb q) s).

(** [sep.join(items)] *)
Definition join (sep : string) (items : list string) : string :=
  String.concat sep items.

Definition digit_value (c : ascii) : Z := Z.of_N (code c) - 48.

Fixpoint int_acc (acc : Z) (s : string) : Z :=
  match s with
  | EmptyString => acc
  | String c s' => int_acc (10 * acc + digit_value c) s'
  end.

(** Exceptions: the class name, whether the class derives from
    [Exception] (what [except Exception] catches; [KeyboardInterrupt] and
    [SystemExit] do not), and [str(e)]. *)
Record exn : Type := Exn {
  exn_class : string;
  exn_ordinary : bool;
  exn_msg : string
}.

Definition ValueError (msg : string) : exn := Exn "ValueError" true msg.
Definition TypeError (msg : string) : exn := Exn "TypeError" true msg.
Definition IndexError (msg : string) : exn := Exn "IndexError" true msg.

(** What evaluating an expression gives: a value or a raised exception. *)
Inductive outcome (A : Type) : Type :=
| Returned (a : A)
| Raised (e : exn).
Arguments Returned {A} a.
Arguments Raised {A} e.

(** [str(n)] for a count. *)
Definition str_of_nat (n : nat) : string :=
  NilZero.string_of_uint (Nat.to_uint n).

(** The number of decimal digits [s] begins with. *)
Fixpoint decimal_prefix (s : string) : nat :=
  match s with
  | String c s' => if isdecimal c then S (decimal_prefix s') else 0
  | EmptyString => 0
  end.

(** [sys.get_int_max_str_digits()], as CPython sets it from 3.11 on. *)
Definition int_max_str_digits : N := 4300.

(** [int(s)] on the strings the parser passes to it, those with
    [s.isdigit()].  The digits [s] begins with are counted first, and
    more of them than the limit is a [ValueError] of its own; then the
    value when every character is a decimal digit, and the [ValueError]
    of an invalid literal otherwise, which shows the first 200 characters
    of [repr(s)]. *)
Definition int (s : string) : outcome Z :=
  let digits := decimal_prefix s in
  if (int_max_str_digits <? N.of_nat digits)%N then
    Raised (ValueError
              ("Exceeds the limit (4300 digits) for integer string conversion: value has "
               ++ str_of_nat digits
               ++ " digits; use sys.set_int_max_str_digits() to increase the limit"))
  else if isdigit s && forallb_str isdecimal s
  then Returned (int_acc 0 s)
  else Raised (ValueError
                 ("invalid literal for int() with base 10: "
                  ++ substring 0 200 ("'" ++ s ++ "'"))).

End Py.

(* ================================================================== *)
(** * The fragment of [re] the parser's two patterns use *)
(* ================================================================== *)

Module Re.

(** Pattern syntax.  Repetition is over a single character class, which
    is all the two patterns need. *)
Inductive regex : Type :=
| Chr (c : ascii)                 (* a literal character *)
| Cls (p : ascii -> bool)         (* \s \w . [..] *)
| Eos                             (* $ without MULTILINE *)
| Seq (r1 r2 : regex)
| Alt (r1 r2 : regex)             (* r1|r2 *)
| Star (p : ascii -> bool)        (* p*  greedy *)
| Plus (p : ascii -> bool)        (* p+  greedy *)
| Lazy (p : ascii -> bool)        (* p*? *)
| Opt (p : ascii -> bool)         (* p?  greedy *)
| Grp (r : regex).                (* ( r ) capturing *)

(** The outcome of a match attempt: the captured groups in order and the
    unconsumed rest of the subject. *)
Definition hit : Type := (list string * string)%type.

Definition orelse (a b : option hit) : option hit :=
  match a with Some _ => a | None => b end.

(** Backtracking over [p*]: the longest run first. *)
Fixpoint star (p : ascii -> bool) (s : string)
    (k : string -> option hit) : option hit :=
  match s with
  | String c s' => if p c then orelse (star p s' k) (k s) else k s
  | EmptyString => k s
  end.

(** Backtracking over [p*?]: the shortest run first. *)
Fixpoint lazy (p : ascii -> bool) (s : string)
    (k : string -> option hit) : option hit :=
  match k s with
  | Some h => Some h
  | None =>
      match s with
      | String c s' => if p c then lazy p s' k else None
      | EmptyString => None
      end
  end.

(** The text consumed between subject [s] and its suffix [rest]. *)
Definition consumed (s rest : string) : string :=
  substring 0 (String.length s - String.length rest) s.

(** The backtracking matcher, in continuation-passing style: [k] is the
    rest of the pattern. *)
Fixpoint run (r : regex) (s : string) (caps : list string)
    (k : string -> list string -> option hit) : option hit :=
  match r with
  | Chr c =>
      match s with
      | String c' s' => if Ascii.eqb c c' then k s' caps else None
      | EmptyString => None
      end
  | Cls p =>
      match s with
      | String c' s' => if p c' then k s' caps else None
      | EmptyString => None
      end
  | Eos =>
      match s with
      | EmptyString => k s caps
      | String c EmptyString => if Ascii.eqb c "010" then k s caps else None
      | _ => None
      end
  | Seq r1 r2 => run r1 s caps (fun s1 caps1 => run r2 s1 caps1 k)
  | Alt r1 r2 => orelse (run r1 s caps k) (run r2 s caps k)
  | Star p => star p s (fun s' => k s' caps)
  | Plus p =>
      match s with
      | String c' s' => if p c' then star p s' (fun s'' => k s'' caps) else None
      | EmptyString => None
      end
  | Lazy p => lazy p s (fun s' => k s' caps)
  | Opt p =>
      match s with
      | String c' s' => if p c' then orelse (k s' caps) (k s caps) else k s caps
      | EmptyString => k s caps
      end
  | Grp r1 => run r1 s caps (fun s' caps' => k s' (caps' ++ [consumed s s']))
  end.

(** One match attempt anchored at the start of [s]. *)
Definition match_at (r : regex) (s : string) : option hit :=
  run r s [] (fun rest caps => Some (caps, rest)).

(** [re.findall]: scan left to right; after a match resume at its end,
    after a failure one character further on.  A match that consumed
    nothing also moves one character on; neither pattern below has one. *)
Fixpoint findall_from (fuel : nat) (r : regex) (s : string)
    : list (list string) :=
  match fuel with
  | O => []
  | S fuel' =>
      let skip :=
        match s with
        | EmptyString => []
        | String _ s' => findall_from fuel' r s'
        end in
      match match_at r s with
      | Some (caps, rest) =>
          caps :: (if Nat.ltb (String.length rest) (String.length s)
                   then findall_from fuel' r rest else skip)
      | None => skip
      end
  end.

Definition findall (r : regex) (s : string) : list (list string) :=
  findall_from (S (String.length s)) r s.

Fixpoint lit (s : string) : regex :=
  match s with
  | EmptyString => Star (fun _ => false)
  | String c EmptyString => Chr c
  | String c s' => Seq (Chr c) (lit s')
  end.

Definition any : ascii -> bool := fun _ => true.             (* . with DOTALL *)
Definition dot : ascii -> bool := fun c => negb (Ascii.eqb c "010").  (* . *)
Definition quote : ascii -> bool :=
  fun c => Ascii.eqb c "034" || Ascii.eqb c "039".   (* double or single *)

End Re.

(* ================================================================== *)
(** * Insertion-ordered dictionaries with [str] keys *)
(* ================================================================== *)

Module Dict.

Section Ops.
Context {V : Type}.

(** A [dict] as the list of its items in insertion order. *)
Definition t : Type := list (string * V).

(** [d.get(k)] / [d[k]] *)
Fixpoint get (d : t) (k : string) : option V :=
  match d with
  | [] => None
  | (k', v) :: d' => if String.eqb k k' then Some v else get d' k
  end.

(** [k in d] *)
Definition mem (d : t) (k : string) : bool :=
  match get d k with Some _ => true | None => false end.

(** [d[k] = v]: an existing key keeps its place and takes the new
    value, a new key goes last. *)
Fixpoint set (d : t) (k : string) (v : V) : t :=
  match d with
  | [] => [(k, v)]
  | (k', v') :: d' =>
      if String.eqb k k' then (k', v) :: d' else (k', v') :: set d' k v
  end.

(** [d.keys()] *)
Definition keys (d : t) : list string := map fst d.
End Ops.

Arguments t V : clear implicits.

End Dict.

(* ================================================================== *)
(** * [ToolExecutor]: the parser *)
(* ================================================================== *)

Import Py.

(** An argument value: [None], an [int] or a [str]. *)
Inductive pyval : Type :=
| PNone
| PInt (z : Z)
| PStr (s : string).

(** A parsed invocation, the dict [{"tool_name": .., "parameters": ..}]. *)
Record tool_call : Type := ToolCall {
  tool_name : string;
  parameters : Dict.t pyval
}.

(** [r'TOOL_CALL:\s*(\w+)\((.*?)\)'] with [re.DOTALL] *)
Definition tool_pattern : Re.regex :=
  Re.Seq (Re.lit "TOOL_CALL:")
 (Re.Seq (Re.Star isspace)
 (Re.Seq (Re.Grp (Re.Plus isword))
 (Re.Seq (Re.Chr "(")
 (Re.Seq (Re.Grp (Re.Lazy Re.any))
         (Re.Chr ")"))))).

(** [r'(\w+)=Q?(.*?)Q?(?:,|$)'], where Q stands for the class of the
    double and the single quote character. *)
Definition param_pattern : Re.regex :=
  Re.Seq (Re.Grp (Re.Plus isword))
 (Re.Seq (Re.Chr "=")
 (Re.Seq (Re.Opt Re.quote)
 (Re.Seq (Re.Grp (Re.Lazy Re.dot))
 (Re.Seq (Re.Opt Re.quote)
         (Re.Alt (Re.Chr ",") Re.Eos))))).

(** [re.findall] with a two-group pattern gives pairs. *)
Definition pairs (ms : list (list string)) : list (string * string) :=
  map (fun caps => (nth 0 caps "", nth 1 caps "")) ms.

(** [param_value.strip()], then [.strip] of the double quote, then
    [.strip] of the single quote. *)
Definition strip_value (param_value : string) : string :=
  strip_char "039" (strip_char "034" (strip param_value)).

(** Lines 117-123: the value stored for one raw argument. *)
Definition coerce (param_value : string) : outcome pyval :=
  let param_value := strip_value param_value in
  if String.eqb (lower param_value) "none" then Returned PNone
  else if isdigit param_value then
    match int param_value with
    | Returned n => Returned (PInt n)
    | Raised e => Raised e
    end
  else Returned (PStr param_value).

(** Lines 115-123: the loop over [param_matches], filling [params]. *)
Fixpoint fill_params (param_matches : list (string * string))
    (params : Dict.t pyval) : outcome (Dict.t pyval) :=
  match param_matches with
  | [] => Returned params
  | (param_name, param_value) :: rest =>
      match coerce param_value with
      | Returned v => fill_params rest (Dict.set params param_name v)
      | Raised e => Raised e
      end
  end.

(** Lines 110-123: the arguments of one match. *)
Definition parse_params (params_str : string) : outcome (Dict.t pyval) :=
  match strip params_str with
  | EmptyString => Returned []
  | _ => fill_params (pairs (Re.findall param_pattern params_str)) []
  end.

(** Lines 108-128: the loop over [matches], filling [tool_calls]. *)
Fixpoint collect_calls (matches : list (string * string))
    (tool_calls : list tool_call) : outcome (list tool_call) :=
  match matches with
  | [] => Returned tool_calls
  | (name, params_str) :: rest =>
      match parse_params params_str with
      | Returned params =>
          collect_calls rest (tool_calls ++ [ToolCall name params])
      | Raised e => Raised e
      end
  end.

Definition parse_tool_calls (text : string) : outcome (list tool_call) :=
  let matches := pairs (Re.findall tool_pattern text) in
  collect_calls matches [].

(* ================================================================== *)
(** * Collaborators and effects *)
(* ================================================================== *)

(** A chat message, the dict [{"role": .., "content": ..}]. *)
Record message : Type := Message {
  role : string;
  content : string
}.

(** What a tool callable hands back: text, or a tuple whose first item is
    the text. *)
Inductive tool_result : Type :=
| Text (s : string)
| Tuple (items : list string).

(** A tool callable applied to keyword arguments, [f( **kwargs )]; binding
    the keywords to the callable's own signature is part of the callable. *)
Definition callable : Type := Dict.t pyval -> outcome tool_result.

Module Tool.
(** One value of the registry dict. *)
Record info : Type := Info {
  function : callable;
  description : string;
  parameters : Dict.t string
}.
End Tool.

(** An entry of [execution_logs]. *)
Record log_entry : Type := LogEntry {
  tool : string;
  params : Dict.t pyval;
  timestamp : string
}.

(** What a run does to the outside, in order: a reading of the clock, a
    call of a tool callable, a call of [generate_response]. *)
Inductive event : Type :=
| Now (t : string)
| Invoke (name : string) (kwargs : Dict.t pyval)
| Generate (messages : list message).

Definition is_now (e : event) : bool :=
  match e with Now _ => true | _ => false end.
Definition is_invoke (e : event) : bool :=
  match e with Invoke _ _ => true | _ => false end.
Definition is_generate (e : event) : bool :=
  match e with Generate _ => true | _ => false end.

Definition count (p : event -> bool) (w : list event) : nat :=
  List.length (filter p w).

(** The LLM collaborator of [llm_service.py]: [available] is
    [self._available]; [send n messages] is what the provider answers, or
    raises, on the [n]-th call of [generate_response] (counted from 0). *)
Record GeminiService : Type := {
  available : bool;
  send : nat -> list message -> outcome string
}.

(** The surroundings of a run: [clock n] is the text
    [datetime.now().isoformat()] gives at the [n]-th reading. *)
Record env : Type := Env {
  clock : nat -> string;
  llm_service : GeminiService
}.

(** Computations: they extend the history of events and return or raise. *)
Definition M (A : Type) : Type := list event -> outcome A * list event.

Definition ret {A} (a : A) : M A := fun w => (Returned a, w).
Definition raise {A} (e : exn) : M A := fun w => (Raised e, w).
Definition bind {A B} (m : M A) (f : A -> M B) : M B :=
  fun w =>
    match m w with
    | (Returned a, w') => f a w'
    | (Raised e, w') => (Raised e, w')
    end.
Definition lift {A} (o : outcome A) : M A := fun w => (o, w).

(** [try: m  except Exception as e: h e] *)
Definition try_except {A} (m : M A) (h : exn -> M A) : M A :=
  fun w =>
    match m w with
    | (Raised e, w') => if exn_ordinary e then h e w' else (Raised e, w')
    | r => r
    end.

Declare Scope agent_scope.
Delimit Scope agent_scope with agent.
Notation "x <- m ;; k" := (bind m (fun x => k))
  (at level 61, m at next level, right associativity) : agent_scope.
Notation "' pat <- m ;; k" := (bind m (fun x => match x with pat => k end))
  (at level 61, pat pattern, m at next level, right associativity)
  : agent_scope.
Local Open Scope agent_scope.

(** [datetime.now().isoformat()] *)
Definition now (E : env) : M string :=
  fun w => let t := clock E (count is_now w) in (Returned t, w ++ [Now t]).

(** [tool_function( **kwargs )] *)
Definition invoke (name : string) (f : callable) (kwargs : Dict.t pyval)
    : M tool_result :=
  fun w =>
    match f kwargs with
    | Returned r => (Returned r, w ++ [Invoke name kwargs])
    | Raised e => (Raised e, w ++ [Invoke name kwargs])
    end.

(** [GeminiService.generate_response]: the guard on [_available], then
    the provider. *)
Definition generate_response (E : env) (messages : list message) : M string :=
  fun w =>
    let w' := w ++ [Generate messages] in
    if negb (available (llm_service E))
    then (Raised (ValueError "Gemini service not initialized. Check API key."),
          w')
    else (send (llm_service E) (count is_generate w) messages, w').

Definition nl : string := String "010" EmptyString.

(* ================================================================== *)
(** * [ToolExecutor]: registry, description, dispatch *)
(* ================================================================== *)

(** The eight methods of [DataAnalyzer] the registry refers to. *)
Record DataAnalyzer : Type := {
  get_dataset_summary : callable;
  get_statistical_summary : callable;
  analyze_delays : callable;
  analyze_route_performance : callable;
  analyze_warehouse_performance : callable;
  analyze_by_time_period : callable;
  get_recommendations : callable;
  search_shipments : callable
}.

Definition registry : Type := Dict.t Tool.info.

Definition _register_tools (data_analyzer : DataAnalyzer) : registry :=
  [ ("get_dataset_summary",
     Tool.Info (get_dataset_summary data_analyzer)
       "Get an overview summary of the shipments dataset including total shipments, date range, routes, warehouses, and basic statistics."
       []);
    ("get_statistical_summary",
     Tool.Info (get_statistical_summary data_analyzer)
       "Get detailed statistical analysis including mean, median, min, max, and standard deviation for delivery times and delays. Use this for statistical questions about median, mean, standard deviation, etc."
       []);
    ("analyze_delays",
     Tool.Info (analyze_delays data_analyzer)
       "Analyze delays in shipments above. Shows delay reasons, affected routes, and warehouses."
       []);
    ("analyze_route_performance",
     Tool.Info (analyze_route_performance data_analyzer)
       "Analyze performance of a specific route or compare all routes. Shows delivery times, delays, and warehouse usage."
       [("route",
         "Specific route to analyze (e.g., 'Route A') or None for all routes")]);
    ("analyze_warehouse_performance",
     Tool.Info (analyze_warehouse_performance data_analyzer)
       "Analyze performance of a specific warehouse or compare all warehouses. Shows delivery times, delays, and route usage."
       [("warehouse",
         "Specific warehouse to analyze (e.g., 'WH1') or None for all warehouses")]);
    ("analyze_by_time_period",
     Tool.Info (analyze_by_time_period data_analyzer)
       "Analyze shipments for a specific time period. Can filter by month (e.g., 'October', 'Oct'), year (e.g., 2024), or date range (start_date and end_date in YYYY-MM-DD format). Shows statistics, delays, and performance for that period."
       [("month",
         "Month name (full or 3-letter abbreviation, e.g., 'October' or 'Oct')");
        ("year", "Year as integer (e.g., 2024)");
        ("start_date", "Start date in YYYY-MM-DD format");
        ("end_date", "End date in YYYY-MM-DD format")]);
    ("get_recommendations",
     Tool.Info (get_recommendations data_analyzer)
       "Generate actionable recommendations based on comprehensive data analysis. Identifies issues and suggests improvements."
       []);
    ("search_shipments",
     Tool.Info (search_shipments data_analyzer)
       "Search for specific shipments based on natural language query (e.g., 'route A with delays', 'warehouse WH1 traffic issues')."
       [("query", "Natural language search query")]) ].

(** Lines 87-90: the text for one tool. *)
Definition describe (tool_name : string) (tool_info : Tool.info) : string :=
  let desc := ("- " ++ tool_name ++ ": " ++ Tool.description tool_info)%string in
  match Tool.parameters tool_info with
  | [] => desc
  | ps =>
      let params :=
        join ", " (map (fun kv => (fst kv ++ ": " ++ snd kv)%string) ps) in
      (desc ++ (nl ++ "  Parameters: " ++ params))%string
  end.

(** Lines 85-92: the loop appends to [descriptions], then the join. *)
Definition get_tools_description (tools : registry) : string :=
  let descriptions :=
    fold_left (fun descriptions item =>
                 descriptions ++ [describe (fst item) (snd item)])
              tools [] in
  join (nl ++ nl) descriptions.

(** Lines 143-155: the body of [execute_tool], which runs once the call
    has bound its arguments. *)
Definition execute_tool_body (tools : registry) (tool_name : string)
    (kwargs : Dict.t pyval) : M string :=
  match Dict.get tools tool_name with
  | None =>
      ret ("Error: Tool '" ++ tool_name ++ "' not found. Available tools: "
           ++ join ", " (Dict.keys tools))%string
  | Some tool_info =>
      try_except
        (result <- invoke tool_name (Tool.function tool_info) kwargs ;;
         match result with
         | Tuple (first :: _) => ret first
         | Tuple [] => raise (IndexError "tuple index out of range")
         | Text s => ret s
         end)
        (fun e =>
           ret ("Error executing " ++ tool_name ++ ": " ++ exn_msg e)%string)
  end.

(** A parameter name of [execute_tool] itself. *)
Definition reserved (k : string) : bool :=
  String.eqb k "self" || String.eqb k "tool_name".

(** [execute_tool(self, tool_name, **kwargs)], called as
    [self.execute_tool(tool_name, **kwargs)] (so on line 182): the
    keywords are bound against the signature first, and a keyword that
    names [self] or [tool_name] a second time is a [TypeError] raised by
    the call itself, before the body runs and outside its [try]. *)
Definition execute_tool (tools : registry) (tool_name : string)
    (kwargs : Dict.t pyval) : M string :=
  match find reserved (Dict.keys kwargs) with
  | Some k =>
      raise (TypeError
               ("ToolExecutor.execute_tool() got multiple values for argument '"
                ++ k ++ "'"))
  | None => execute_tool_body tools tool_name kwargs
  end.

(** Lines 170-183: the loop over [tool_calls], with its two accumulators. *)
Fixpoint run_tool_calls (E : env) (tools : registry)
    (tool_calls : list tool_call)
    (results : list string) (execution_logs : list log_entry)
    : M (list string * list log_entry) :=
  match tool_calls with
  | [] => ret (results, execution_logs)
  | tool_call :: rest =>
      let tool_name := tool_name tool_call in
      let params := parameters tool_call in
      t <- now E ;;
      let execution_logs := execution_logs ++ [LogEntry tool_name params t] in
      result <- execute_tool tools tool_name params ;;
      let results :=
        results
        ++ [("**Tool: " ++ tool_name ++ "**" ++ nl ++ nl ++ result)%string] in
      run_tool_calls E tools rest results execution_logs
  end.

Definition execute_tool_calls (E : env) (tools : registry)
    (tool_calls : list tool_call) : M (string * list log_entry) :=
  st <- run_tool_calls E tools tool_calls [] [] ;;
  let combined_results := join (nl ++ nl ++ "---" ++ nl ++ nl) (fst st) in
  ret (combined_results, snd st).

(* ================================================================== *)
(** * [AgentService] *)
(* ================================================================== *)

Record AgentService : Type := {
  tools : registry;            (* [self.tool_executor.tools] *)
  system_prompt : string
}.

(** The user message of the second pass (lines 240-244). *)
Definition tool_results_prompt (tool_results : string) : string :=
  ("Here are the tool results:" ++ nl ++ nl ++ tool_results ++ nl ++ nl
  ++ "Based on these tool results, answer the user's original question directly and concisely. Focus ONLY on what the user asked for. Extract the specific information they requested (e.g., if they asked for 'average delay', provide that number clearly). Do not repeat all the data - just answer their question.")%string.

(** Lines 219-221. *)
Definition first_messages (self : AgentService) (user_message : string)
    (conversation_history : list message) : list message :=
  ([Message "system" (system_prompt self)] ++ conversation_history)
  ++ [Message "user" user_message].

Definition process_message (E : env) (self : AgentService)
    (user_message : string) (conversation_history : list message)
    : M (string * option string * list log_entry) :=
  let messages := first_messages self user_message conversation_history in
  initial_response <- generate_response E messages ;;
  tool_calls <- lift (parse_tool_calls initial_response) ;;
  match tool_calls with
  | [] => ret (initial_response, None, [])
  | _ =>
      st <- execute_tool_calls E (tools self) tool_calls ;;
      let tool_results := fst st in
      let execution_logs := snd st in
      let messages := messages ++ [Message "assistant" initial_response] in
      let messages :=
        messages ++ [Message "user" (tool_results_prompt tool_results)] in
      final_response <- generate_response E messages ;;
      ret (final_response, Some tool_results, execution_logs)
  end.

(* ================================================================== *)
(** * Specification-side definitions *)
(* ================================================================== *)

(** [x] occurs in [text]. *)
Definition contains (text x : string) : Prop :=
  exists pre post : string, text = (pre ++ x ++ post)%string.

(** The tool description as the design document words it: one block per
    tool, [- name: description], then an indented [Parameters:] line when
    the tool has parameters; blocks separated by a blank line, in registry
    order. *)
Definition parameters_line (ps : Dict.t string) : string :=
  (nl ++ "  Parameters: "
   ++ join ", " (map (fun kv => (fst kv ++ ": " ++ snd kv)%string) ps))%string.

Definition block (item : string * Tool.info) : string :=
  ("- " ++ fst item ++ ": " ++ Tool.description (snd item)
   ++ match Tool.parameters (snd item) with
      | [] => ""
      | ps => parameters_line ps
      end)%string.

Definition description_spec (tools : registry) : string :=
  join (nl ++ nl) (map block tools).

(** What of a registry the description may depend on: everything but the
    callables. *)
Definition metadata (tools : registry)
    : list (string * (string * Dict.t string)) :=
  map (fun item => (fst item,
                    (Tool.description (snd item), Tool.parameters (snd item))))
      tools.

(** What the dispatcher makes of one invocation when nothing escapes it:
    the text, the section of the combined text, and the events. *)
Definition tool_text (tools : registry) (c : tool_call) : string :=
  match Dict.get tools (tool_name c) with
  | None =>
      ("Error: Tool '" ++ tool_name c ++ "' not found. Available tools: "
       ++ join ", " (Dict.keys tools))%string
  | Some info =>
      match Tool.function info (parameters c) with
      | Returned (Text s) => s
      | Returned (Tuple (first :: _)) => first
      | Returned (Tuple []) =>
          ("Error executing " ++ tool_name c
           ++ ": tuple index out of range")%string
      | Raised e =>
          ("Error executing " ++ tool_name c ++ ": " ++ exn_msg e)%string
      end
  end.

Definition tool_section (tools : registry) (c : tool_call) : string :=
  ("**Tool: " ++ tool_name c ++ "**" ++ nl ++ nl ++ tool_text tools c)%string.

(** The log and the events of a batch whose first clock reading is the
    [k]-th: per invocation the clock is read, then the callable runs. *)
Fixpoint batch_log (E : env) (k : nat) (calls : list tool_call)
    : list log_entry :=
  match calls with
  | [] => []
  | c :: cs =>
      LogEntry (tool_name c) (parameters c) (clock E k) :: batch_log E (S k) cs
  end.

Fixpoint batch_events (E : env) (tools : registry) (k : nat)
    (calls : list tool_call) : list event :=
  match calls with
  | [] => []
  | c :: cs =>
      Now (clock E k)
      :: match Dict.get tools (tool_name c) with
         | Some _ => [Invoke (tool_name c) (parameters c)]
         | None => []
         end
      ++ batch_events E tools (S k) cs
  end.

(** An invocation the dispatcher handles: no argument is named like a
    parameter of [execute_tool], and its callable, if any, raises nothing
    outside [Exception] on the arguments. *)
Definition dispatchable (tools : registry) (c : tool_call) : Prop :=
  find reserved (Dict.keys (parameters c)) = None
  /\ forall info e,
       Dict.get tools (tool_name c) = Some info ->
       Tool.function info (parameters c) = Raised e ->
       exn_ordinary e = true.

(** The raw value of the last (rightmost) fragment whose key is [key]. *)
Fixpoint rightmost (key : string) (fragments : list (string * string))
    : option string :=
  match fragments with
  | [] => None
  | (k, raw) :: rest =>
      match rightmost key rest with
      | Some r => Some r
      | None => if String.eqb k key then Some raw else None
      end
  end.

(** A character [int] can read whenever [isdigit] accepts it: on the
    range the model covers, up to U+00FF, every character but the three
    superscript digits. *)
Definition plain (c : ascii) : bool := negb (isdigit_char c) || isdecimal c.

(** [s] is made of characters of the class [P]. *)
Definition over (P : ascii -> bool) (s : string) : Prop :=
  forallb_str P s = true.

(** [s] is not longer than the number of digits [int] reads. *)
Definition short (s : string) : Prop :=
  (N.of_nat (String.length s) <= int_max_str_digits)%N.

(** A text [int] cannot fail on: no superscript digit in it, and no room
    for more digits than the limit. *)
Definition readable (s : string) : Prop := over plain s /\ short s.

Definition over_hit (P : ascii -> bool) (h : Re.hit) : Prop :=
  Forall (over P) (fst h) /\ over P (snd h).

(** The tool-call marker. *)
Definition marker : string := "TOOL_CALL:".

Definition not_close (c : ascii) : bool := negb (Ascii.eqb c ")").

(** [s] begins with a well-formed call: the marker, optional whitespace,
    a name of one or more word characters, an opening parenthesis, a body
    that runs up to the first closing parenthesis, and [rest] after it. *)
Definition starts_call (s name body rest : string) : Prop :=
  exists ws : string,
    s = (marker ++ ws ++ name ++ "(" ++ body ++ ")" ++ rest)%string
    /\ forallb_str isspace ws = true
    /\ name <> EmptyString
    /\ forallb_str isword name = true
    /\ forallb_str not_close body = true.

(** The occurrences of well-formed calls in a text, scanning left to
    right without overlap: at each position either a call starts there,
    and the scan resumes after its closing parenthesis, or none does, and
    the scan moves one character on. *)
Inductive occurrences : string -> list (string * string) -> Prop :=
| occ_end : occurrences EmptyString []
| occ_here (s name body rest : string) (l : list (string * string)) :
    starts_call s name body rest ->
    occurrences rest l ->
    occurrences s ((name, body) :: l)
| occ_skip (c : ascii) (s : string) (l : list (string * string)) :
    (forall name body rest, ~ starts_call (String c s) name body rest) ->
    occurrences s l ->
    occurrences (String c s) l.

(** The last step of the tool pattern, the closing parenthesis, as the
    continuation the lazy body runs against. *)
Definition close (caps : list string) (s4 s' : string) : option Re.hit :=
  match s' with
  | String c r =>
      if Ascii.eqb ")" c then Some (caps ++ [Re.consumed s4 s'], r) else None
  | EmptyString => None
  end.

(* ================================================================== *)
(** * Scenarios *)
(* ================================================================== *)

Definition dq : string := String "034" EmptyString.

(** U+00B2 SUPERSCRIPT TWO *)
Definition sup2 : string := String "178" EmptyString.

Definition answers (s : string) : callable := fun _ => Returned (Text s).
Definition fails (e : exn) : callable := fun _ => Raised e.

Definition demo_analyzer : DataAnalyzer := {|
  get_dataset_summary := answers "Total shipments: 120";
  get_statistical_summary := answers "Mean delivery time: 42.5";
  analyze_delays := fails (Exn "KeyError" true "'delay_minutes'");
  analyze_route_performance := answers "Route A: 12 shipments";
  analyze_warehouse_performance := answers "WH1: 40 shipments";
  analyze_by_time_period := answers "October 2024: 31 shipments";
  get_recommendations := answers "Review Route C";
  search_shipments := answers "Found 3 shipments"
|}.

(** An analyzer none of whose methods works. *)
Definition broken_analyzer : DataAnalyzer :=
  let down := fails (Exn "RuntimeError" true "no data") in
  Build_DataAnalyzer down down down down down down down down.

Definition demo_agent : AgentService := {|
  tools := _register_tools demo_analyzer;
  system_prompt := "You are a logistics assistant."
|}.

Definition demo_clock (n : nat) : string :=
  nth n ["2024-10-05T09:30:00.000125"; "2024-10-05T09:30:00.000391"]
        "2024-10-05T09:30:01".

(** A provider that greets. *)
Definition greeting_env : env :=
  Env demo_clock
      {| available := true;
         send := fun _ _ => Returned "Hello! How can I help you today?" |}.

(** A provider that asks for one tool, then answers. *)
Definition summary_env : env :=
  Env demo_clock
      {| available := true;
         send := fun n _ =>
           match n with
           | O => Returned "TOOL_CALL: get_dataset_summary()"
           | _ => Returned "There are 120 shipments."
           end |}.

(** No API key. *)
Definition offline_env : env :=
  Env demo_clock
      {| available := false; send := fun _ _ => Returned "" |}.

(** A provider that goes away between the two passes. *)
Definition flaky_env : env :=
  Env demo_clock
      {| available := true;
         send := fun n _ =>
           match n with
           | O => Returned "TOOL_CALL: get_dataset_summary()"
           | _ => Raised (Exn "ServiceUnavailable" true "503 unavailable")
           end |}.

(** A provider whose tool call names an argument [tool_name]. *)
Definition colliding_env : env :=
  Env demo_clock
      {| available := true;
         send := fun n _ =>
           match n with
           | O => Returned "TOOL_CALL: get_dataset_summary(tool_name=x)"
           | _ => Returned "There are 120 shipments."
           end |}.

(* ================================================================== *)
(** * The parser: what it returns *)
(* ================================================================== *)

(** The end of the argument pattern, from the optional closing quote on,
    as the continuation the lazy value runs against. *)
Definition tail (caps : list string) (s2 s' : string) : option Re.hit :=
  Re.run (Re.Seq (Re.Opt Re.quote) (Re.Alt (Re.Chr ",") Re.Eos)) s'
         (caps ++ [Re.consumed s2 s'])
         (fun rest caps' => Some (caps', rest)).

Definition not_comma (c : ascii) : bool := negb (Ascii.eqb c ",").

(** A string value is made of characters of the class [P]. *)
Definition value_over (P : ascii -> bool) (v : pyval) : Prop :=
  match v with
  | PStr s => over P s
  | _ => True
  end.

(** Name, keys and string values of an invocation are made of characters
    of the class [P]. *)
Definition call_over (P : ascii -> bool) (c : tool_call) : Prop :=
  over P (tool_name c)
  /\ Forall (fun kv => over P (fst kv) /\ value_over P (snd kv))
            (parameters c).

(** What every parsed invocation looks like. *)
Definition identifier (s : string) : Prop :=
  s <> EmptyString /\ over isword s.



(** The wire format the system prompt prescribes to the model:
    [TOOL_CALL: tool_name(param1=Qvalue1Q, param2=Qvalue2Q)], Q being the
    double quote. *)
Definition render_arg (kv : string * string) : string :=
  (fst kv ++ "=" ++ dq ++ snd kv ++ dq)%string.

Definition render_args (args : list (string * string)) : string :=
  join ", " (map render_arg args).

Definition render_call (name : string) (args : list (string * string))
    : string :=
  ("TOOL_CALL: " ++ name ++ "(" ++ render_args args ++ ")")%string.

(** A character a value can hold and come back whole: no quote, comma,
    line break or closing parenthesis. *)
Definition clean (c : ascii) : bool :=
  negb (Re.quote c) && not_comma c && Re.dot c && not_close c.

(* ================================================================== *)
(** * [llm_service.py]: the request sent to the provider *)
(* ================================================================== *)

(** A message in the provider's format, the dict
    [{"role": .., "parts": [..]}]. *)
Record gemini_message : Type := GeminiMessage {
  gemini_role : string;
  parts : list string
}.

(** The provider library: [start_chat n history] is what building the
    model and opening a chat on [history] gives at the [n]-th call of
    [generate_response], a chat whose [send_message] maps a prompt to the
    text of the response, or raises. *)
Record Genai : Type := {
  start_chat : nat -> list gemini_message -> outcome (string -> outcome string)
}.

(** Lines 55-60: the loop over [messages], with its two variables. *)
Fixpoint convert_messages (messages : list message)
    (gemini_messages : list gemini_message) (system_prompt : option string)
    : list gemini_message * option string :=
  match messages with
  | [] => (gemini_messages, system_prompt)
  | msg :: rest =>
      if String.eqb (role msg) "system"
      then convert_messages rest gemini_messages (Some (content msg))
      else
        let role := if String.eqb (role msg) "user" then "user" else "model" in
        convert_messages rest
          (gemini_messages ++ [GeminiMessage role [content msg]])
          system_prompt
  end.

(** Lines 52-67: [full_messages]. *)
Definition full_messages (messages : list message) : list gemini_message :=
  let converted := convert_messages messages [] None in
  let gemini_messages := fst converted in
  match snd converted with
  | Some (String c s) => GeminiMessage "user" [String c s] :: gemini_messages
  | _ => gemini_messages
  end.

(** Lines 49 and 70-73: the chat is opened on [full_messages[:-1]], then
    [full_messages[-1]["parts"][0]] is sent. *)
Definition gemini_send (G : Genai) (n : nat) (messages : list message)
    : outcome string :=
  let full_messages := full_messages messages in
  match start_chat G n (removelast full_messages) with
  | Raised e => Raised e
  | Returned chat =>
      match rev full_messages with
      | [] => Raised (IndexError "list index out of range")
      | last :: _ =>
          match parts last with
          | [] => Raised (IndexError "list index out of range")
          | prompt :: _ => chat prompt
          end
      end
  end.

(** [LLMServiceFactory.create_service], that is [GeminiService.__init__]:
    the service is available when the key is neither [None] nor empty.
    The provider name is not looked at. *)
Definition create_service (G : Genai) (provider : string)
    (api_key : option string) : GeminiService :=
  {| available := match api_key with
                  | Some (String _ _) => true
                  | _ => false
                  end;
     send := gemini_send G |}.

(** One message in the provider's format. *)
Definition to_gemini (msg : message) : gemini_message :=
  GeminiMessage (if String.eqb (role msg) "user" then "user" else "model")
                [content msg].

Definition is_system (msg : message) : bool := String.eqb (role msg) "system".

(** The content of the last system message, if any. *)
Definition last_system (messages : list message) : option string :=
  match rev (filter is_system messages) with
  | [] => None
  | msg :: _ => Some (content msg)
  end.

(** The turn the system prompt becomes. *)
Definition lead (system_prompt : option string) : list gemini_message :=
  match system_prompt with
  | Some (String c s) => [GeminiMessage "user" [String c s]]
  | _ => []
  end.

(** A provider that answers with the roles of the history it was given
    and the prompt. *)
Definition echo_genai : Genai :=
  {| start_chat := fun _ history =>
       Returned (fun prompt =>
                   Returned (join "," (map gemini_role history)
                             ++ ">" ++ prompt)%string) |}.

(* ================================================================== *)
(** * [app.py]: the chat loop *)
(* ================================================================== *)

Module Session.
(** What [st.session_state] keeps between two runs of the script: the
    transcript and the log of tool calls. *)
Record t : Type := Make {
  messages : list message;
  tool_calls : list log_entry
}.
End Session.

(** Lines 98-140 of [main] on one run of the script.  [chat_input] is
    what [st.chat_input] returns, [None] when nothing was submitted; the
    block runs only for a prompt that is true, that is, not empty.  Then
    the user message is appended, the agent is called on the transcript
    without that last message, the log is extended, and the response, or
    the text of the exception, is appended as the assistant message.
    What the page displays is left out. *)
Definition chat_turn (E : env) (agent : AgentService)
    (chat_input : option string) (st : Session.t) : M Session.t :=
  match chat_input with
  | Some (String _ _ as prompt) =>
      let messages := Session.messages st ++ [Message "user" prompt] in
      answer <-
        try_except
          (result <- process_message E agent prompt (removelast messages) ;;
           let response := fst (fst result) in
           let execution_logs := snd result in
           ret (response, Session.tool_calls st ++ execution_logs))
          (fun e =>
             ret (("Error: " ++ exn_msg e)%string, Session.tool_calls st)) ;;
      ret (Session.Make (messages ++ [Message "assistant" (fst answer)])
                        (snd answer))
  | _ => ret st
  end.

(** One run of the script after the other, each with what the input
    returned. *)
Fixpoint chat_turns (E : env) (agent : AgentService)
    (runs : list (option string)) (st : Session.t) : M Session.t :=
  match runs with
  | [] => ret st
  | chat_input :: rest =>
      st' <- chat_turn E agent chat_input st ;;
      chat_turns E agent rest st'
  end.

(** The prompts among the runs: what was submitted and is not empty. *)
Fixpoint submitted (runs : list (option string)) : list string :=
  match runs with
  | [] => []
  | Some (String c s) :: rest => String c s :: submitted rest
  | _ :: rest => submitted rest
  end.

(** Collaborators that raise nothing outside [Exception]. *)
Definition tame (E : env) (agent : AgentService) : Prop :=
  (forall n messages e,
      send (llm_service E) n messages = Raised e -> exn_ordinary e = true)
  /\ (forall name info kwargs e,
         Dict.get (tools agent) name = Some info ->
         Tool.function info kwargs = Raised e -> exn_ordinary e = true).

(** A transcript made of exchanges: a user message, then the assistant
    message that answers it. *)
Definition exchanges (l : list (string * string)) : list message :=
  flat_map (fun ua => [Message "user" (fst ua); Message "assistant" (snd ua)])
           l.

(** A computation that only adds events behind those already there. *)
Definition extends {A} (m : M A) : Prop :=
  forall w : list event, exists rest : list event, snd (m w) = w ++ rest.

(* ================================================================== *)
(** * [data_analyzer.py]: how the tools take their arguments *)
(* ================================================================== *)

(** [bool(v)], the test behind [if route:] and the like. *)
Definition truthy (v : pyval) : bool :=
  match v with
  | PNone => false
  | PInt z => negb (Z.eqb z 0)
  | PStr s => negb (String.eqb s "")
  end.

Definition AttributeError (msg : string) : exn := Exn "AttributeError" true msg.

(** [v.lower()] on an argument value: only a [str] has the method. *)
Definition lower_of (v : pyval) : outcome string :=
  match v with
  | PStr s => Returned (lower s)
  | PInt _ => Raised (AttributeError "'int' object has no attribute 'lower'")
  | PNone =>
      Raised (AttributeError "'NoneType' object has no attribute 'lower'")
  end.

(** The signature of a method of [DataAnalyzer]: its qualified name, the
    parameter without a default if it has one, and the parameters whose
    default is [None]. *)
Record signature : Type := Signature {
  qualname : string;
  required : option string;
  optional : list string
}.

Definition accepts (sig : signature) (k : string) : bool :=
  match required sig with
  | Some p => String.eqb k p
  | None => false
  end
  || existsb (String.eqb k) (optional sig).

(** The first keyword the call cannot bind, in the order of the keywords:
    one named [self], which the bound method has already, or one that is
    no parameter.  (The texts are those of CPython 3.10 to 3.12.) *)
Fixpoint rejected_keyword (sig : signature) (kwargs : Dict.t pyval)
    : option exn :=
  match kwargs with
  | [] => None
  | (k, _) :: rest =>
      if String.eqb k "self" then
        Some (TypeError
                (qualname sig
                 ++ "() got multiple values for argument 'self'")%string)
      else if accepts sig k then rejected_keyword sig rest
      else
        Some (TypeError
                (qualname sig ++ "() got an unexpected keyword argument '"
                 ++ k ++ "'")%string)
  end.

(** The value a parameter takes: the keyword's, else the default [None]. *)
Definition argument (kwargs : Dict.t pyval) (p : string) : pyval :=
  match Dict.get kwargs p with
  | Some v => v
  | None => PNone
  end.

(** The call [method( **kwargs )]: binding, then the body. *)
Definition method (sig : signature)
    (body : (string -> pyval) -> outcome string) : callable :=
  fun kwargs =>
    match rejected_keyword sig kwargs with
    | Some e => Raised e
    | None =>
        let missing :=
          match required sig with
          | Some p => if Dict.mem kwargs p then None else Some p
          | None => None
          end in
        match missing with
        | Some p =>
            Raised (TypeError
                      (qualname sig
                       ++ "() missing 1 required positional argument: '"
                       ++ p ++ "'")%string)
        | None =>
            match body (argument kwargs) with
            | Returned s => Returned (Text s)
            | Raised e => Raised e
            end
        end
    end.

(** What the methods work out of the data frame with pandas, which is not
    modelled: each field is the text a part of a method returns, or what
    it raises. *)
Record Reports : Type := {
  dataset_summary : outcome string;        (* lines 43-59 *)
  statistical_summary : outcome string;    (* lines 63-92 *)
  delays : outcome string;                 (* lines 96-129 *)
  recommendations : outcome string;        (* lines 257-295 *)
  route_report : pyval -> outcome string;  (* lines 134-156, one route *)
  routes_comparison : outcome string;      (* lines 158-187 *)
  warehouse_report : pyval -> outcome string;   (* lines 192-222 *)
  warehouses_comparison : outcome string;       (* lines 224-253 *)
  (* lines 327-382, from the filter on the month number on *)
  period_report :
    option Z -> pyval -> pyval -> pyval -> pyval -> outcome string;
  search_rows : string -> outcome string   (* lines 388-436 *)
}.

(** Lines 306-319. *)
Definition month_mapping : Dict.t Z :=
  [ ("january", 1); ("jan", 1); ("february", 2); ("feb", 2);
    ("march", 3); ("mar", 3); ("april", 4); ("apr", 4); ("may", 5);
    ("june", 6); ("jun", 6); ("july", 7); ("jul", 7);
    ("august", 8); ("aug", 8);
    ("september", 9); ("sep", 9); ("sept", 9);
    ("october", 10); ("oct", 10); ("november", 11); ("nov", 11);
    ("december", 12); ("dec", 12) ]%Z.

(** The signatures of the eight methods the registry refers to (lines 41,
    61, 94, 131, 189, 255, 297-298 and 384). *)
Definition signatures : Dict.t signature :=
  [ ("get_dataset_summary",
     Signature "DataAnalyzer.get_dataset_summary" None []);
    ("get_statistical_summary",
     Signature "DataAnalyzer.get_statistical_summary" None []);
    ("analyze_delays", Signature "DataAnalyzer.analyze_delays" None []);
    ("analyze_route_performance",
     Signature "DataAnalyzer.analyze_route_performance" None ["route"]);
    ("analyze_warehouse_performance",
     Signature "DataAnalyzer.analyze_warehouse_performance" None
               ["warehouse"]);
    ("analyze_by_time_period",
     Signature "DataAnalyzer.analyze_by_time_period" None
               ["month"; "year"; "start_date"; "end_date"]);
    ("get_recommendations",
     Signature "DataAnalyzer.get_recommendations" None []);
    ("search_shipments",
     Signature "DataAnalyzer.search_shipments" (Some "query") []) ].

(** The bound method [self.data_analyzer.<name>] as a callable. *)
Definition bound (name : string)
    (body : (string -> pyval) -> outcome string) : callable :=
  match Dict.get signatures name with
  | Some sig => method sig body
  | None =>
      fun _ =>
        Raised (AttributeError
                  ("'DataAnalyzer' object has no attribute '" ++ name ++ "'")
                  %string)
  end.

(** Line 324, the text about a month that is no key of the mapping; the
    month is a [str] there, [lower] having returned. *)
Definition invalid_month (month : pyval) : string :=
  ("Invalid month: " ++ match month with PStr m => m | _ => "" end
   ++ ". Use full name or 3-letter abbreviation.")%string.

(** Lines 131-133 and 157: [if route:]. *)
Definition analyze_route_performance_body (R : Reports)
    (arg : string -> pyval) : outcome string :=
  let route := arg "route" in
  if truthy route then route_report R route else routes_comparison R.

(** Lines 189-191 and 223: [if warehouse:]. *)
Definition analyze_warehouse_performance_body (R : Reports)
    (arg : string -> pyval) : outcome string :=
  let warehouse := arg "warehouse" in
  if truthy warehouse then warehouse_report R warehouse
  else warehouses_comparison R.

(** Lines 297-326: the month is looked up by its lower-case form; an
    unknown month ends the method with a text. *)
Definition analyze_by_time_period_body (R : Reports)
    (arg : string -> pyval) : outcome string :=
  let month := arg "month" in
  let year := arg "year" in
  let start_date := arg "start_date" in
  let end_date := arg "end_date" in
  if truthy month then
    match lower_of month with
    | Raised e => Raised e
    | Returned lowered =>
        match Dict.get month_mapping lowered with
        | Some month_num =>
            if negb (Z.eqb month_num 0)
            then period_report R (Some month_num) month year start_date
                               end_date
            else
              Returned (invalid_month month)
        | None =>
            Returned (invalid_month month)
        end
    end
  else period_report R None month year start_date end_date.

(** Lines 384-386: [query = query.lower()]. *)
Definition search_shipments_body (R : Reports)
    (arg : string -> pyval) : outcome string :=
  match lower_of (arg "query") with
  | Raised e => Raised e
  | Returned query => search_rows R query
  end.

(** The analyzer over given reports. *)
Definition analyzer_of (R : Reports) : DataAnalyzer := {|
  get_dataset_summary :=
    bound "get_dataset_summary" (fun _ => dataset_summary R);
  get_statistical_summary :=
    bound "get_statistical_summary" (fun _ => statistical_summary R);
  analyze_delays := bound "analyze_delays" (fun _ => delays R);
  analyze_route_performance :=
    bound "analyze_route_performance" (analyze_route_performance_body R);
  analyze_warehouse_performance :=
    bound "analyze_warehouse_performance"
          (analyze_warehouse_performance_body R);
  analyze_by_time_period :=
    bound "analyze_by_time_period" (analyze_by_time_period_body R);
  get_recommendations :=
    bound "get_recommendations" (fun _ => recommendations R);
  search_shipments := bound "search_shipments" (search_shipments_body R)
|}.

(** The tools that take no argument. *)
Definition parameterless : list string :=
  ["get_dataset_summary"; "get_statistical_summary"; "analyze_delays";
   "get_recommendations"].

(** Reports for the scenarios. *)
Definition demo_reports : Reports := {|
  dataset_summary := Returned "Total Shipments: 120";
  statistical_summary := Returned "Mean: 3.20 days";
  delays := Returned "Total Delayed Shipments: 40";
  recommendations := Returned "Study Route B";
  route_report := fun _ => Returned "Performance Analysis for Route A";
  routes_comparison := Returned "Route Performance Comparison";
  warehouse_report := fun _ => Returned "Performance Analysis for WH1";
  warehouses_comparison := Returned "Warehouse Performance Comparison";
  period_report := fun _ _ _ _ _ => Returned "Time Period Analysis";
  search_rows := fun _ => Returned "Found 3 shipments"
|}.

(* ================================================================== *)
(** * The dispatcher: what a batch does to the outside *)
(* ================================================================== *)

(** Whether a name is registered. *)
Definition registered (tools : registry) (c : tool_call) : bool :=
  Dict.mem tools (tool_name c).

(** The event of the callable's run for an invocation. *)
Definition invocation (c : tool_call) : event :=
  Invoke (tool_name c) (parameters c).

(* ================================================================== *)
(** * Properties *)
(* ================================================================== *)

(** ** Lists and strings *)

Lemma fold_left_snoc {A B} (f : A -> B) (l : list A) (acc : list B) :
  fold_left (fun acc x => acc ++ [f x]) l acc = acc ++ map f l.
Proof.
  revert acc. induction l as [|x l IH]; intro acc; simpl.
  - now rewrite app_nil_r.
  - rewrite IH, <- app_assoc. reflexivity.
Qed.

Lemma append_assoc (a b c : string) :
  ((a ++ b) ++ c = a ++ (b ++ c))%string.
Proof. induction a as [|x a IH]; simpl; [reflexivity | now rewrite IH]. Qed.

Lemma append_nil_r (a : string) : (a ++ "")%string = a.
Proof. induction a as [|x a IH]; simpl; [reflexivity | now rewrite IH]. Qed.

Lemma contains_refl (x : string) : contains x x.
Proof. exists "", "". simpl. now rewrite append_nil_r. Qed.

Lemma contains_app_r (pre text x : string) :
  contains text x -> contains (pre ++ text) x.
Proof.
  intros (a & b & ->). exists (pre ++ a)%string, b.
  now rewrite append_assoc.
Qed.

Lemma contains_app_l (text post x : string) :
  contains text x -> contains (text ++ post) x.
Proof.
  intros (a & b & ->). exists a, (b ++ post)%string.
  now rewrite !append_assoc.
Qed.

(** Every item of a joined list occurs in the result. *)
Lemma contains_join (sep : string) (items : list string) (x : string) :
  In x items -> contains (join sep items) x.
Proof.
  unfold join. induction items as [|y items IH]; simpl; [tauto|].
  intros [-> | Hin].
  - destruct items; [apply contains_refl | apply contains_app_l, contains_refl].
  - destruct items as [|z items]; [destruct Hin|].
    apply contains_app_r, contains_app_r, IH, Hin.
Qed.

(** ** The tool description *)

Lemma describe_block (item : string * Tool.info) :
  describe (fst item) (snd item) = block item.
Proof.
  unfold describe, block, parameters_line.
  destruct (Tool.parameters (snd item)) as [|p ps].
  - now rewrite append_nil_r.
  - now rewrite ?append_assoc.
Qed.

Lemma description_spec_metadata (tools1 tools2 : registry) :
  metadata tools1 = metadata tools2 ->
  description_spec tools1 = description_spec tools2.
Proof.
  unfold description_spec. intro H. f_equal.
  revert tools2 H.
  induction tools1 as [|[n1 i1] t1 IH]; intros [|[n2 i2] t2] H;
    simpl in *; try discriminate; [reflexivity|].
  injection H as Hn Hd Hp Ht.
  f_equal; [|now apply IH].
  unfold block; simpl. now rewrite Hn, Hd, Hp.
Qed.

(** C8. [get_tools_description] renders the registry as the design
    document says: it is the blocks of the tools, one per registry entry
    in insertion order, joined by a blank line; a block is the line
    [- name: description], followed by the indented [Parameters: k: hint,
    ...] line exactly when the tool's parameter mapping is non-empty.  The
    text is a function of the names, descriptions and hints alone, so it
    is the same at every call and for every analyzer behind the registry. *)
Theorem get_tools_description_spec :
  (forall tools : registry,
      get_tools_description tools = description_spec tools)
  /\ (forall (name : string) (info : Tool.info),
         block (name, info)
         = ("- " ++ name ++ ": " ++ Tool.description info
            ++ (if Nat.eqb (List.length (Tool.parameters info)) 0 then ""
                else nl ++ "  Parameters: "
                     ++ join ", "
                          (map (fun kv => fst kv ++ ": " ++ snd kv)
                               (Tool.parameters info))))%string)
  /\ (forall tools1 tools2 : registry,
         metadata tools1 = metadata tools2 ->
         get_tools_description tools1 = get_tools_description tools2)
  /\ (forall a1 a2 : DataAnalyzer,
         get_tools_description (_register_tools a1)
         = get_tools_description (_register_tools a2)).
Proof.
  assert (Hspec : forall tools : registry,
             get_tools_description tools = description_spec tools).
  { intro tools. unfold get_tools_description, description_spec.
    rewrite (fold_left_snoc (fun item => describe (fst item) (snd item))).
    simpl. f_equal. apply map_ext. intro item. apply describe_block. }
  split; [|split; [|split]].
  - exact Hspec.
  - intros name info. unfold block, parameters_line. simpl.
    now destruct (Tool.parameters info).
  - intros tools1 tools2 H. rewrite !Hspec.
    now apply description_spec_metadata.
  - intros a1 a2. rewrite !Hspec. now apply description_spec_metadata.
Qed.

Lemma get_tools_description_spec_witness :
  get_tools_description (_register_tools demo_analyzer)
  = get_tools_description (_register_tools broken_analyzer)
  /\ get_tools_description (_register_tools demo_analyzer)
     = "- get_dataset_summary: Get an overview summary of the shipments dataset including total shipments, date range, routes, warehouses, and basic statistics.

- get_statistical_summary: Get detailed statistical analysis including mean, median, min, max, and standard deviation for delivery times and delays. Use this for statistical questions about median, mean, standard deviation, etc.

- analyze_delays: Analyze delays in shipments above. Shows delay reasons, affected routes, and warehouses.

- analyze_route_performance: Analyze performance of a specific route or compare all routes. Shows delivery times, delays, and warehouse usage.
  Parameters: route: Specific route to analyze (e.g., 'Route A') or None for all routes

- analyze_warehouse_performance: Analyze performance of a specific warehouse or compare all warehouses. Shows delivery times, delays, and route usage.
  Parameters: warehouse: Specific warehouse to analyze (e.g., 'WH1') or None for all warehouses

- analyze_by_time_period: Analyze shipments for a specific time period. Can filter by month (e.g., 'October', 'Oct'), year (e.g., 2024), or date range (start_date and end_date in YYYY-MM-DD format). Shows statistics, delays, and performance for that period.
  Parameters: month: Month name (full or 3-letter abbreviation, e.g., 'October' or 'Oct'), year: Year as integer (e.g., 2024), start_date: Start date in YYYY-MM-DD format, end_date: End date in YYYY-MM-DD format

- get_recommendations: Generate actionable recommendations based on comprehensive data analysis. Identifies issues and suggests improvements.

- search_shipments: Search for specific shipments based on natural language query (e.g., 'route A with delays', 'warehouse WH1 traffic issues').
  Parameters: query: Natural language search query".
Proof.
  split.
  - exact (proj1 (proj2 (proj2 get_tools_description_spec))
             (_register_tools demo_analyzer)
             (_register_tools broken_analyzer) eq_refl).
  - rewrite (proj1 get_tools_description_spec). vm_compute. reflexivity.
Defined.

(** ** The dispatcher *)

(** Keywords apart that name [self] or [tool_name], [execute_tool]
    returns text and never raises, for every tool name and keyword
    arguments, as long as the callable registered under the name raises
    nothing outside [Exception] on them.  For an unregistered name the
    text is the not-found message: it contains the name and every
    registered name, and no callable runs.  For a registered tool whose
    callable raises, the text contains the tool name and the message of
    the exception. *)
Lemma execute_tool_returns_text
    (tools : registry) (name : string) (kwargs : Dict.t pyval)
    (w : list event)
    (Hkeys : find reserved (Dict.keys kwargs) = None)
    (Hordinary : forall info e,
        Dict.get tools name = Some info ->
        Tool.function info kwargs = Raised e -> exn_ordinary e = true) :
  exists (text : string) (w' : list event),
    execute_tool tools name kwargs w = (Returned text, w')
    /\ (Dict.get tools name = None ->
        text = ("Error: Tool '" ++ name ++ "' not found. Available tools: "
                ++ join ", " (Dict.keys tools))%string
        /\ w' = w
        /\ contains text name
        /\ forall k, In k (Dict.keys tools) -> contains text k)
    /\ (forall info e,
           Dict.get tools name = Some info ->
           Tool.function info kwargs = Raised e ->
           text = ("Error executing " ++ name ++ ": " ++ exn_msg e)%string
           /\ contains text name
           /\ contains text (exn_msg e)).
Proof.
  unfold execute_tool. rewrite Hkeys. unfold execute_tool_body.
  destruct (Dict.get tools name) as [info|] eqn:Hget.
  - unfold try_except, bind, invoke, ret, raise.
    destruct (Tool.function info kwargs) as [r|e] eqn:Hcall.
    + destruct r as [s | [|first items]]; simpl;
        eexists; eexists; (split; [reflexivity|]);
        (split; [discriminate | intros info' e' Hi' He'; congruence]).
    + rewrite (Hordinary info e eq_refl Hcall).
      eexists; eexists; split; [reflexivity|].
      split; [discriminate|].
      intros info' e' Hi' He'.
      injection Hi' as <-. rewrite Hcall in He'. injection He' as <-.
      split; [reflexivity|]. split.
      * apply contains_app_r. exists "", (": " ++ exn_msg e)%string.
        reflexivity.
      * apply contains_app_r, contains_app_r, contains_app_r, contains_refl.
  - unfold ret. eexists; eexists; split; [reflexivity|].
    split; [|intros info e Hi; discriminate].
    intros _. split; [reflexivity|]. split; [reflexivity|]. split.
    + apply contains_app_r.
      exists "", ("' not found. Available tools: "
                  ++ join ", " (Dict.keys tools))%string.
      reflexivity.
    + intros k Hk.
      apply contains_app_r, contains_app_r, contains_app_r.
      now apply contains_join.
Qed.

Lemma execute_tool_returns_text_example :
  fst (execute_tool (_register_tools demo_analyzer) "plot_chart" [] [])
  = Returned
      "Error: Tool 'plot_chart' not found. Available tools: get_dataset_summary, get_statistical_summary, analyze_delays, analyze_route_performance, analyze_warehouse_performance, analyze_by_time_period, get_recommendations, search_shipments"
  /\ fst (execute_tool (_register_tools demo_analyzer) "analyze_delays" [] [])
     = Returned "Error executing analyze_delays: 'delay_minutes'".
Proof. split; reflexivity. Qed.

(** C5. [execute_tool] does raise.  Called with a keyword named
    [tool_name], it raises [TypeError] while the call binds its
    arguments: for a name that is not registered, where the not-found
    text was due, and for a registered tool whose callable would have
    answered.  No text comes back, and no callable has run. *)
Theorem execute_tool_keyword_collision :
  execute_tool (_register_tools demo_analyzer) "plot_chart"
    [("tool_name", PStr "x")] []
  = (Raised (TypeError
       "ToolExecutor.execute_tool() got multiple values for argument 'tool_name'"),
     [])
  /\ execute_tool (_register_tools demo_analyzer) "get_dataset_summary"
       [("tool_name", PStr "x")] []
     = (Raised (TypeError
          "ToolExecutor.execute_tool() got multiple values for argument 'tool_name'"),
        []).
Proof. split; reflexivity. Qed.

(** ** The orchestrator *)

Lemma count_app (p : event -> bool) (w1 w2 : list event) :
  count p (w1 ++ w2) = count p w1 + count p w2.
Proof. unfold count. now rewrite filter_app, length_app. Qed.

Lemma count_snoc (p : event -> bool) (w : list event) (e : event) :
  count p (w ++ [e]) = count p w + (if p e then 1 else 0).
Proof.
  rewrite count_app. f_equal. unfold count. simpl. now destruct (p e).
Qed.

(** [generate_response] always records the call, whatever comes back. *)
Lemma generate_response_events (E : env) (messages : list message)
    (w : list event) :
  snd (generate_response E messages w) = w ++ [Generate messages].
Proof.
  unfold generate_response.
  now destruct (negb (available (llm_service E))).
Qed.

Lemma generate_response_split (E : env) (messages : list message)
    (w : list event) :
  generate_response E messages w
  = (fst (generate_response E messages w), w ++ [Generate messages]).
Proof.
  rewrite <- (generate_response_events E messages w).
  now destruct (generate_response E messages w).
Qed.

(** C2. When the first response parses to no tool call, [process_message]
    returns that response unchanged, [None] for the tool results and an
    empty log; the only thing it did was the one call of the LLM. *)
Theorem process_message_without_tool_calls
    (E : env) (self : AgentService) (user_message : string)
    (conversation_history : list message) (w : list event)
    (initial_response : string)
    (Hllm : fst (generate_response E
                   (first_messages self user_message conversation_history) w)
            = Returned initial_response)
    (Hparse : parse_tool_calls initial_response = Returned []) :
  let messages := first_messages self user_message conversation_history in
  process_message E self user_message conversation_history w
  = (Returned (initial_response, None, []), w ++ [Generate messages])
  /\ count is_generate (w ++ [Generate messages]) = S (count is_generate w)
  /\ count is_invoke (w ++ [Generate messages]) = count is_invoke w
  /\ count is_now (w ++ [Generate messages]) = count is_now w.
Proof.
  intro messages. split.
  - unfold process_message, bind. fold messages.
    rewrite generate_response_split. fold messages in Hllm. rewrite Hllm.
    unfold lift. rewrite Hparse. reflexivity.
  - rewrite !count_snoc. simpl. lia.
Qed.

Lemma process_message_without_tool_calls_witness :
  process_message greeting_env demo_agent "Hello!" [] []
  = (Returned ("Hello! How can I help you today?", None, []),
     [Generate [Message "system" "You are a logistics assistant.";
                Message "user" "Hello!"]]).
Proof.
  exact (proj1 (process_message_without_tool_calls
                  greeting_env demo_agent "Hello!" [] []
                  "Hello! How can I help you today?" eq_refl eq_refl)).
Defined.

(** C9. A failure of the LLM call is not caught.  When the first call
    raises, [process_message] raises the same exception, having run no
    tool and read no clock, so there is no log entry.  When the second
    call raises, after the tools have run, the same holds: the exception
    comes out unchanged. *)
Theorem llm_failure_propagates
    (E : env) (self : AgentService) (user_message : string)
    (conversation_history : list message) (w : list event) (e : exn) :
  let messages := first_messages self user_message conversation_history in
  (fst (generate_response E messages w) = Raised e ->
   process_message E self user_message conversation_history w
   = (Raised e, w ++ [Generate messages])
   /\ count is_invoke (w ++ [Generate messages]) = count is_invoke w
   /\ count is_now (w ++ [Generate messages]) = count is_now w)
  /\
  (forall initial_response tool_calls st w2,
      fst (generate_response E messages w) = Returned initial_response ->
      parse_tool_calls initial_response = Returned tool_calls ->
      tool_calls <> [] ->
      execute_tool_calls E (tools self) tool_calls
        (w ++ [Generate messages]) = (Returned st, w2) ->
      let messages2 :=
        (messages ++ [Message "assistant" initial_response])
        ++ [Message "user" (tool_results_prompt (fst st))] in
      fst (generate_response E messages2 w2) = Raised e ->
      process_message E self user_message conversation_history w
      = (Raised e, w2 ++ [Generate messages2])).
Proof.
  intro messages. split.
  - intro Hllm. split.
    + unfold process_message, bind. fold messages.
      rewrite generate_response_split, Hllm. reflexivity.
    + rewrite !count_snoc. simpl. lia.
  - intros initial_response tool_calls st w2 Hllm Hparse Hne Hexec
      messages2 Hllm2.
    unfold process_message, bind. fold messages.
    rewrite generate_response_split, Hllm.
    unfold lift. rewrite Hparse.
    destruct tool_calls as [|c cs]; [contradiction|].
    rewrite Hexec. fold messages2.
    rewrite generate_response_split, Hllm2. reflexivity.
Qed.

Lemma llm_failure_propagates_witness :
  process_message offline_env demo_agent "Hello!" [] []
  = (Raised (ValueError "Gemini service not initialized. Check API key."),
     [Generate [Message "system" "You are a logistics assistant.";
                Message "user" "Hello!"]])
  /\ fst (process_message flaky_env demo_agent "How many shipments?" [] [])
     = Raised (Exn "ServiceUnavailable" true "503 unavailable").
Proof.
  split.
  - exact (proj1 (proj1 (llm_failure_propagates
                           offline_env demo_agent "Hello!" [] []
                           (ValueError
                              "Gemini service not initialized. Check API key."))
                        eq_refl)).
  - rewrite (proj2 (llm_failure_propagates
                      flaky_env demo_agent "How many shipments?" [] []
                      (Exn "ServiceUnavailable" true "503 unavailable"))
                   "TOOL_CALL: get_dataset_summary()"
                   [ToolCall "get_dataset_summary" []]
                   (("**Tool: get_dataset_summary**" ++ nl ++ nl
                     ++ "Total shipments: 120")%string,
                    [LogEntry "get_dataset_summary" []
                       "2024-10-05T09:30:00.000125"])
                   [Generate (first_messages demo_agent
                                "How many shipments?" []);
                    Now "2024-10-05T09:30:00.000125";
                    Invoke "get_dataset_summary" []]
                   eq_refl eq_refl).
    + reflexivity.
    + discriminate.
    + reflexivity.
    + reflexivity.
Defined.

(** ** The dispatcher on a batch *)

Lemma execute_tool_text (tools : registry) (c : tool_call) (w : list event) :
  (forall info e,
      Dict.get tools (tool_name c) = Some info ->
      Tool.function info (parameters c) = Raised e ->
      exn_ordinary e = true) ->
  execute_tool_body tools (tool_name c) (parameters c) w
  = (Returned (tool_text tools c),
     w ++ match Dict.get tools (tool_name c) with
          | Some _ => [Invoke (tool_name c) (parameters c)]
          | None => []
          end).
Proof.
  intro Hord. unfold execute_tool_body, tool_text.
  destruct (Dict.get tools (tool_name c)) as [info|] eqn:Hget.
  - unfold try_except, bind, invoke, ret, raise.
    destruct (Tool.function info (parameters c)) as [r|e] eqn:Hcall.
    + now destruct r as [s | [|first items]].
    + now rewrite (Hord info e eq_refl Hcall).
  - unfold ret. now rewrite app_nil_r.
Qed.

Lemma run_tool_calls_spec (E : env) (tools : registry)
    (calls : list tool_call) :
  Forall (dispatchable tools) calls ->
  forall (results : list string) (logs : list log_entry) (w : list event),
    run_tool_calls E tools calls results logs w
    = (Returned (results ++ map (tool_section tools) calls,
                 logs ++ batch_log E (count is_now w) calls),
       w ++ batch_events E tools (count is_now w) calls).
Proof.
  induction 1 as [|c cs [Hkeys Hord] _ IH]; intros results logs w; simpl.
  - unfold ret. now rewrite !app_nil_r.
  - unfold bind at 1. unfold now at 1. unfold bind at 1.
    unfold execute_tool. rewrite Hkeys.
    rewrite (execute_tool_text tools c _ Hord).
    rewrite IH. unfold tool_section at 2.
    rewrite <- !app_assoc. simpl.
    replace (count is_now
               (w ++ Now (clock E (count is_now w))
                  :: match Dict.get tools (tool_name c) with
                     | Some _ => [Invoke (tool_name c) (parameters c)]
                     | None => []
                     end))
      with (S (count is_now w)); [reflexivity|].
    rewrite count_app. unfold count at 3. simpl.
    destruct (Dict.get tools (tool_name c)); simpl; lia.
Qed.

Lemma batch_log_length (E : env) (k : nat) (calls : list tool_call) :
  List.length (batch_log E k calls) = List.length calls.
Proof. revert k. induction calls; intro k; simpl; [|rewrite IHcalls]; easy. Qed.

Lemma batch_log_nth (E : env) (calls : list tool_call) :
  forall (k i : nat) (c : tool_call),
    nth_error calls i = Some c ->
    nth_error (batch_log E k calls) i
    = Some (LogEntry (tool_name c) (parameters c) (clock E (k + i))).
Proof.
  induction calls as [|c' cs IH]; intros k [|i] c H; simpl in *;
    try discriminate.
  - injection H as ->. now rewrite Nat.add_0_r.
  - rewrite (IH (S k) i c H). do 3 f_equal. lia.
Qed.

(** Outside the two ways an exception can escape the dispatcher, a batch
    of [n] invocations yields [n] log entries in input order, each with
    the invocation's name and arguments and the clock reading taken before
    its callable ran; the sections, headed [Tool: name], are joined by a
    rule between blank lines; and the timestamps follow the clock. *)
Theorem execute_tool_calls_spec (E : env) (tools : registry)
    (calls : list tool_call) (w : list event) :
  Forall (dispatchable tools) calls ->
  let sep := (nl ++ nl ++ "---" ++ nl ++ nl)%string in
  let logs := batch_log E (count is_now w) calls in
  execute_tool_calls E tools calls w
  = (Returned (join sep (map (tool_section tools) calls), logs),
     w ++ batch_events E tools (count is_now w) calls)
  /\ List.length logs = List.length calls
  /\ (forall i c, nth_error calls i = Some c ->
        nth_error logs i
        = Some (LogEntry (tool_name c) (parameters c)
                  (clock E (count is_now w + i))))
  /\ ((forall i j, i <= j -> String.leb (clock E i) (clock E j) = true) ->
      forall i j a b, i <= j ->
        nth_error logs i = Some a -> nth_error logs j = Some b ->
        String.leb (timestamp a) (timestamp b) = true).
Proof.
  intros Hok sep logs. split; [|split; [|split]].
  - unfold execute_tool_calls, bind.
    rewrite (run_tool_calls_spec E tools calls Hok). reflexivity.
  - apply batch_log_length.
  - intros i c. apply batch_log_nth.
  - intros Hmono i j a b Hij Ha Hb.
    assert (Hi : i < List.length calls).
    { rewrite <- (batch_log_length E (count is_now w)).
      apply nth_error_Some. fold logs. congruence. }
    assert (Hj : j < List.length calls).
    { rewrite <- (batch_log_length E (count is_now w)).
      apply nth_error_Some. fold logs. congruence. }
    destruct (nth_error calls i) as [ci|] eqn:Hci;
      [|apply nth_error_None in Hci; lia].
    destruct (nth_error calls j) as [cj|] eqn:Hcj;
      [|apply nth_error_None in Hcj; lia].
    unfold logs in Ha, Hb.
    rewrite (batch_log_nth E calls _ i ci Hci) in Ha.
    rewrite (batch_log_nth E calls _ j cj Hcj) in Hb.
    injection Ha as <-. injection Hb as <-. simpl.
    apply Hmono. lia.
Qed.

(** An invocation one of whose arguments is named like a parameter of
    [execute_tool] stops the batch: its log entry has been appended, the
    call raises, and neither the log nor any text is returned. *)
Lemma execute_tool_calls_reserved_key (E : env) (tools : registry)
    (c : tool_call) (cs : list tool_call) (w : list event) (k : string) :
  find reserved (Dict.keys (parameters c)) = Some k ->
  execute_tool_calls E tools (c :: cs) w
  = (Raised (TypeError
       ("ToolExecutor.execute_tool() got multiple values for argument '"
        ++ k ++ "'")),
     w ++ [Now (clock E (count is_now w))]).
Proof.
  intro Hk. unfold execute_tool_calls. cbn [run_tool_calls].
  unfold bind, now, execute_tool. rewrite Hk. reflexivity.
Qed.

(** C6. An invocation whose arguments contain the key [tool_name]: the
    clock is read for its log entry, then the call of [execute_tool]
    raises [TypeError] while binding the keywords, outside the [try] of
    [execute_tool].  [execute_tool_calls] raises instead of returning: for
    this list of one invocation no log entry comes back. *)
Theorem execute_tool_calls_keyword_collision
    (E : env) (tools : registry) (w : list event) :
  execute_tool_calls E tools
    [ToolCall "get_dataset_summary" [("tool_name", PStr "x")]] w
  = (Raised (TypeError
       "ToolExecutor.execute_tool() got multiple values for argument 'tool_name'"),
     w ++ [Now (clock E (count is_now w))]).
Proof. reflexivity. Qed.

(** ** The second pass *)

Lemma batch_events_no_generate (E : env) (tools : registry)
    (calls : list tool_call) :
  forall k, count is_generate (batch_events E tools k calls) = 0.
Proof.
  induction calls as [|c cs IH]; intro k; simpl; [reflexivity|].
  unfold count in *. simpl. rewrite filter_app, length_app, IH.
  now destruct (Dict.get tools (tool_name c)).
Qed.

(** X6. Outside the two ways an exception can escape the parser and the
    dispatcher, a first response with tool calls leads to exactly two calls of
    the LLM; the second one is sent the first sequence, the first response as
    an assistant message and the tool results wrapped in the fixed
    instruction; its answer is returned as it is, with the tool results and
    the log. *)
Theorem process_message_with_tool_calls
    (E : env) (self : AgentService) (user_message : string)
    (conversation_history : list message) (w : list event)
    (initial_response final_response : string)
    (tool_calls : list tool_call) :
  let messages := first_messages self user_message conversation_history in
  let w1 := w ++ [Generate messages] in
  let tool_results :=
    join (nl ++ nl ++ "---" ++ nl ++ nl)
         (map (tool_section (tools self)) tool_calls) in
  let w2 := w1 ++ batch_events E (tools self) (count is_now w) tool_calls in
  let messages2 :=
    messages ++ [Message "assistant" initial_response;
                 Message "user" (tool_results_prompt tool_results)] in
  fst (generate_response E messages w) = Returned initial_response ->
  parse_tool_calls initial_response = Returned tool_calls ->
  tool_calls <> [] ->
  Forall (dispatchable (tools self)) tool_calls ->
  fst (generate_response E messages2 w2) = Returned final_response ->
  process_message E self user_message conversation_history w
  = (Returned (final_response, Some tool_results,
               batch_log E (count is_now w) tool_calls),
     w2 ++ [Generate messages2])
  /\ count is_generate (w2 ++ [Generate messages2])
     = 2 + count is_generate w.
Proof.
  intros messages w1 tool_results w2 messages2 Hllm Hparse Hne Hok Hllm2.
  assert (Hnow : count is_now w1 = count is_now w).
  { unfold w1. rewrite count_snoc. simpl. lia. }
  split.
  - unfold process_message, bind. fold messages.
    rewrite generate_response_split, Hllm. fold w1.
    unfold lift. rewrite Hparse.
    destruct tool_calls as [|c cs]; [contradiction|].
    destruct (execute_tool_calls_spec E (tools self) (c :: cs) w1 Hok)
      as [Hexec _].
    rewrite Hexec, Hnow. cbn [fst snd]. fold tool_results. fold w2.
    replace ((messages ++ [Message "assistant" initial_response])
             ++ [Message "user" (tool_results_prompt tool_results)])
      with messages2 by (unfold messages2; now rewrite <- app_assoc).
    rewrite generate_response_split, Hllm2. reflexivity.
  - unfold w2, w1. rewrite !count_snoc, count_app, count_snoc.
    rewrite batch_events_no_generate. simpl. lia.
Qed.

(** C3. The first response asks for a tool with an argument named
    [tool_name]: after the one call of the LLM the dispatcher's call of
    [execute_tool] raises [TypeError], and [process_message] raises it in
    turn.  There is no second call of the LLM and no triple. *)
Theorem process_message_keyword_collision :
  process_message colliding_env demo_agent "How many shipments are there?"
    [] []
  = (Raised (TypeError
       "ToolExecutor.execute_tool() got multiple values for argument 'tool_name'"),
     [Generate [Message "system" "You are a logistics assistant.";
                Message "user" "How many shipments are there?"];
      Now "2024-10-05T09:30:00.000125"]).
Proof. vm_compute. reflexivity. Qed.

(** ** Dictionaries *)

Lemma get_set_same {V} (d : Dict.t V) (k : string) (v : V) :
  Dict.get (Dict.set d k v) k = Some v.
Proof.
  induction d as [|[k' v'] d IH]; simpl.
  - now rewrite String.eqb_refl.
  - destruct (String.eqb k k') eqn:Hk; simpl; rewrite Hk; [reflexivity|apply IH].
Qed.

Lemma get_set_other {V} (d : Dict.t V) (k k' : string) (v : V) :
  k <> k' -> Dict.get (Dict.set d k v) k' = Dict.get d k'.
Proof.
  intro Hne. induction d as [|[k0 v0] d IH]; simpl.
  - destruct (String.eqb_spec k' k); [congruence|reflexivity].
  - destruct (String.eqb_spec k k0) as [->|Hk0]; simpl.
    + destruct (String.eqb_spec k' k0); [congruence|reflexivity].
    + now rewrite IH.
Qed.

Lemma keys_set_in {V} (d : Dict.t V) (k k' : string) (v : V) :
  In k' (Dict.keys (Dict.set d k v)) <-> k' = k \/ In k' (Dict.keys d).
Proof.
  unfold Dict.keys. induction d as [|[k0 v0] d IH]; simpl.
  - intuition.
  - destruct (String.eqb_spec k k0) as [->|Hk0]; simpl; [intuition|].
    rewrite IH. intuition.
Qed.

(** Assignment keeps the keys of a dictionary distinct. *)
Lemma keys_set_nodup {V} (d : Dict.t V) (k : string) (v : V) :
  NoDup (Dict.keys d) -> NoDup (Dict.keys (Dict.set d k v)).
Proof.
  unfold Dict.keys. induction d as [|[k0 v0] d IH]; simpl; intro Hnd.
  - constructor; [intros []|constructor].
  - inversion Hnd as [|? ? Hnotin Hnd']; subst.
    destruct (String.eqb_spec k k0) as [->|Hk0]; simpl.
    + now constructor.
    + constructor; [|now apply IH].
      intro Hin. apply (keys_set_in d k k0 v) in Hin.
      destruct Hin as [->|Hin]; [now apply Hk0 | now apply Hnotin].
Qed.

Lemma get_in_keys {V} (d : Dict.t V) (k : string) (v : V) :
  Dict.get d k = Some v -> In k (Dict.keys d).
Proof.
  unfold Dict.keys. induction d as [|[k0 v0] d IH]; simpl; [discriminate|].
  destruct (String.eqb_spec k k0) as [->|Hk0]; [now left|].
  intro H. right. now apply IH.
Qed.

(** ** The argument loop *)

Lemma rightmost_in (key : string) (fragments : list (string * string)) :
  In key (map fst fragments) -> exists raw, rightmost key fragments = Some raw.
Proof.
  induction fragments as [|[k raw] rest IH]; simpl; [intros []|].
  intros [-> | Hin].
  - destruct (rightmost key rest) as [r|]; [now exists r|].
    rewrite String.eqb_refl. now exists raw.
  - destruct (IH Hin) as [r ->]. now exists r.
Qed.

(** The loop of lines 115-123: keys stay distinct, a key seen in the
    fragments ends with the coerced value of its rightmost fragment, any
    other key keeps what it had. *)
Lemma fill_params_spec (fragments : list (string * string)) :
  forall d d' : Dict.t pyval,
    fill_params fragments d = Returned d' ->
    NoDup (Dict.keys d) ->
    NoDup (Dict.keys d')
    /\ forall key,
         match rightmost key fragments with
         | Some raw =>
             exists v, coerce raw = Returned v /\ Dict.get d' key = Some v
         | None => Dict.get d' key = Dict.get d key
         end.
Proof.
  induction fragments as [|[k raw] rest IH]; intros d d' Hfill Hnd; simpl in *.
  - injection Hfill as <-. now split.
  - destruct (coerce raw) as [v|e] eqn:Hco; [|discriminate].
    destruct (IH _ _ Hfill (keys_set_nodup d k v Hnd)) as [Hnd' Hval].
    split; [exact Hnd'|].
    intro key. specialize (Hval key).
    destruct (rightmost key rest) as [r|]; [exact Hval|].
    destruct (String.eqb_spec k key) as [->|Hne].
    + exists v. split; [exact Hco|]. now rewrite Hval, get_set_same.
    + now rewrite Hval, get_set_other.
Qed.

(** ** The parser: arguments of one call *)

(** No whitespace character is a word character. *)
Lemma isspace_not_word (c : ascii) : isspace c = true -> isword c = false.
Proof.
  destruct c as [[] [] [] [] [] [] [] []]; vm_compute; congruence.
Qed.

Lemma match_at_param_start (c : ascii) (s : string) :
  isword c = false -> Re.match_at param_pattern (String c s) = None.
Proof.
  intro H. unfold Re.match_at, param_pattern. cbn [Re.run]. now rewrite H.
Qed.

Lemma findall_param_blank (fuel : nat) :
  forall s, forallb_str isspace s = true ->
            Re.findall_from fuel param_pattern s = [].
Proof.
  induction fuel as [|fuel IH]; intros s Hs; [reflexivity|].
  cbn [Re.findall_from]. destruct s as [|c s].
  - reflexivity.
  - cbn [forallb_str] in Hs. apply andb_prop in Hs as [Hc Hs].
    rewrite (match_at_param_start c s (isspace_not_word c Hc)).
    now apply IH.
Qed.

Lemma rstrip_empty (p : ascii -> bool) (s : string) :
  rstrip p s = EmptyString -> forallb_str p s = true.
Proof.
  induction s as [|c s IH]; simpl; [reflexivity|].
  destruct (rstrip p s) eqn:Hr; [|discriminate].
  destruct (p c); [intros _; now apply IH | discriminate].
Qed.

Lemma lstrip_forallb (p : ascii -> bool) (s : string) :
  forallb_str p (lstrip p s) = true -> forallb_str p s = true.
Proof.
  induction s as [|c s IH]; simpl; [reflexivity|].
  destruct (p c) eqn:Hc; simpl; [exact IH | now rewrite Hc].
Qed.

Lemma strip_empty (s : string) :
  strip s = EmptyString -> forallb_str isspace s = true.
Proof. intro H. apply lstrip_forallb, rstrip_empty, H. Qed.

(** The guard on a blank body changes nothing: a blank body has no
    fragment. *)
Lemma parse_params_fill (params_str : string) :
  parse_params params_str
  = fill_params (pairs (Re.findall param_pattern params_str)) [].
Proof.
  unfold parse_params. destruct (strip params_str) eqn:Hs; [|reflexivity].
  unfold Re.findall. now rewrite (findall_param_blank _ _ (strip_empty _ Hs)).
Qed.

Lemma collect_calls_spec (matches : list (string * string)) :
  forall acc calls,
    collect_calls matches acc = Returned calls ->
    exists calls',
      calls = acc ++ calls'
      /\ Forall2 (fun m c => tool_name c = fst m
                             /\ parse_params (snd m) = Returned (parameters c))
                 matches calls'.
Proof.
  induction matches as [|[name body] rest IH]; intros acc calls H; simpl in H.
  - injection H as <-. exists []. now rewrite app_nil_r.
  - destruct (parse_params body) as [ps|e] eqn:Hp; [|discriminate].
    destruct (IH _ _ H) as (calls' & -> & HF).
    exists (ToolCall name ps :: calls'). rewrite <- app_assoc. split; [reflexivity|].
    constructor; [now split | exact HF].
Qed.

Lemma Forall2_nth_error {A B} (R : A -> B -> Prop) (l1 : list A) (l2 : list B) :
  Forall2 R l1 l2 ->
  forall i a b, nth_error l1 i = Some a -> nth_error l2 i = Some b -> R a b.
Proof.
  induction 1 as [|x y l1 l2 HR _ IH]; intros [|i] a b Ha Hb; simpl in *;
    try discriminate.
  - injection Ha as <-. injection Hb as <-. exact HR.
  - eapply IH; eassumption.
Qed.

(** C10. Take the invocation parsed from the [i]-th occurrence of the
    tool pattern, and a key that the argument pattern finds in the body of
    that occurrence, once or several times.  The invocation's arguments
    hold exactly one entry for the key, and its value is the coerced value
    of the rightmost fragment with that key. *)
Theorem repeated_key_takes_last
    (text : string) (calls : list tool_call) (i : nat)
    (name body : string) (call : tool_call) (key : string)
    (Hparse : parse_tool_calls text = Returned calls)
    (Hocc : nth_error (pairs (Re.findall tool_pattern text)) i
            = Some (name, body))
    (Hcall : nth_error calls i = Some call)
    (Hkey : In key (map fst (pairs (Re.findall param_pattern body)))) :
  tool_name call = name
  /\ count_occ string_dec (Dict.keys (parameters call)) key = 1
  /\ exists raw v,
       rightmost key (pairs (Re.findall param_pattern body)) = Some raw
       /\ coerce raw = Returned v
       /\ Dict.get (parameters call) key = Some v.
Proof.
  unfold parse_tool_calls in Hparse.
  destruct (collect_calls_spec _ _ _ Hparse) as (calls' & -> & HF).
  simpl in Hcall.
  destruct (Forall2_nth_error _ _ _ HF i _ _ Hocc Hcall) as [Hname Hps].
  simpl in Hname, Hps. split; [exact Hname|].
  rewrite parse_params_fill in Hps.
  destruct (fill_params_spec _ _ _ Hps (NoDup_nil _)) as [Hnd Hval].
  specialize (Hval key).
  destruct (rightmost_in key _ Hkey) as [raw Hraw]. rewrite Hraw in Hval.
  destruct Hval as (v & Hco & Hget).
  split.
  - apply NoDup_count_occ'; [exact Hnd|]. eapply get_in_keys, Hget.
  - now exists raw, v.
Qed.

Lemma repeated_key_takes_last_witness :
  exists call,
    parse_tool_calls "TOOL_CALL: f(a=1, a=2)" = Returned [call]
    /\ count_occ string_dec (Dict.keys (parameters call)) "a" = 1
    /\ Dict.get (parameters call) "a" = Some (PInt 2).
Proof.
  exists (ToolCall "f" [("a", PInt 2)]).
  split; [reflexivity|].
  destruct (repeated_key_takes_last
              "TOOL_CALL: f(a=1, a=2)" [ToolCall "f" [("a", PInt 2)]] 0
              "f" "a=1, a=2" (ToolCall "f" [("a", PInt 2)]) "a"
              eq_refl eq_refl eq_refl (or_introl eq_refl))
    as (_ & Hcount & raw & v & Hraw & Hco & Hget).
  split; [exact Hcount|].
  injection Hraw as <-. injection Hco as <-. exact Hget.
Defined.

(** ** The parser: coercion *)

Lemma decimal_prefix_length (s : string) :
  decimal_prefix s <= String.length s.
Proof.
  induction s as [|c s IH]; simpl; [lia|]. destruct (isdecimal c); lia.
Qed.

Lemma decimal_prefix_all (s : string) :
  forallb_str isdecimal s = true -> decimal_prefix s = String.length s.
Proof.
  induction s as [|c s IH]; simpl; [reflexivity|].
  intro H. apply andb_prop in H as [-> Hs]. now rewrite (IH Hs).
Qed.

Lemma decimal_digit (t : string) :
  forallb_str isdecimal t = true -> forallb_str isdigit_char t = true.
Proof.
  induction t as [|c t IH]; simpl; [reflexivity|].
  intro H. apply andb_prop in H as [Hc Ht].
  rewrite (IH Ht), andb_true_r. unfold isdigit_char. now rewrite Hc.
Qed.

(** [int] on the strings [isdigit] accepts: within the limit on the
    digits it begins with, the value for decimal digits and the
    invalid-literal error otherwise; beyond the limit, the error of the
    limit. *)
Lemma int_cases (s : string) :
  isdigit s = true ->
  ((N.of_nat (decimal_prefix s) <= int_max_str_digits)%N ->
   forallb_str isdecimal s = true -> int s = Returned (int_acc 0 s))
  /\ ((N.of_nat (decimal_prefix s) <= int_max_str_digits)%N ->
      forallb_str isdecimal s = false ->
      int s
      = Raised (ValueError
                  ("invalid literal for int() with base 10: "
                   ++ substring 0 200 ("'" ++ s ++ "'"))))
  /\ ((int_max_str_digits < N.of_nat (decimal_prefix s))%N ->
      exists msg, int s = Raised (ValueError msg)).
Proof.
  intro Hd. unfold int. cbv zeta. rewrite Hd.
  split; [|split]; intro Hlim.
  - apply N.ltb_ge in Hlim. rewrite Hlim. now intros ->.
  - apply N.ltb_ge in Hlim. rewrite Hlim. now intros ->.
  - apply N.ltb_lt in Hlim. rewrite Hlim. now eexists.
Qed.


Lemma int_raised (s : string) (e : exn) :
  int s = Raised e -> exn_class e = "ValueError" /\ exn_ordinary e = true.
Proof.
  unfold int. cbv zeta.
  destruct (int_max_str_digits <? N.of_nat (decimal_prefix s))%N.
  - intro H. injection H as <-. now split.
  - destruct (isdigit s && forallb_str isdecimal s); [discriminate|].
    intro H. injection H as <-. now split.
Qed.

(** What [coerce] does on every raw value: [None] for a stripped value
    that lower-cases to [none]; the integer for a non-empty stripped value
    of at most 4300 decimal digits; the stripped string for a value that
    [isdigit] rejects; and [ValueError] for a value that [isdigit] accepts
    but that holds a character that is not a decimal digit, or that
    begins with more than 4300 decimal digits. *)
Lemma coerce_cases (raw : string) :
  let s := strip_value raw in
  (lower s = "none" -> coerce raw = Returned PNone)
  /\ (lower s <> "none" -> s <> EmptyString ->
      forallb_str isdecimal s = true ->
      (N.of_nat (String.length s) <= int_max_str_digits)%N ->
      coerce raw = Returned (PInt (int_acc 0 s)))
  /\ (lower s <> "none" -> isdigit s = false ->
      coerce raw = Returned (PStr s))
  /\ (lower s <> "none" -> isdigit s = true ->
      forallb_str isdecimal s = false ->
      (N.of_nat (decimal_prefix s) <= int_max_str_digits)%N ->
      coerce raw
      = Raised (ValueError
                  ("invalid literal for int() with base 10: "
                   ++ substring 0 200 ("'" ++ s ++ "'"))))
  /\ (lower s <> "none" -> isdigit s = true ->
      (int_max_str_digits < N.of_nat (decimal_prefix s))%N ->
      exists msg, coerce raw = Raised (ValueError msg)).
Proof.
  intro s. unfold coerce. fold s.
  split; [|split; [|split; [|split]]].
  - intros ->. reflexivity.
  - intros Hn Hne Hdec Hlen.
    destruct (String.eqb_spec (lower s) "none") as [|_]; [contradiction|].
    assert (Hd : isdigit s = true).
    { unfold isdigit. destruct s; [contradiction|]. now apply decimal_digit. }
    rewrite Hd. destruct (int_cases s Hd) as [Hok _].
    rewrite Hok; [reflexivity| |exact Hdec].
    now rewrite (decimal_prefix_all s Hdec).
  - intros Hn Hd.
    destruct (String.eqb_spec (lower s) "none") as [|_]; [contradiction|].
    now rewrite Hd.
  - intros Hn Hd Hdec Hlim.
    destruct (String.eqb_spec (lower s) "none") as [|_]; [contradiction|].
    rewrite Hd. destruct (int_cases s Hd) as (_ & Hbad & _).
    now rewrite (Hbad Hlim Hdec).
  - intros Hn Hd Hlim.
    destruct (String.eqb_spec (lower s) "none") as [|_]; [contradiction|].
    rewrite Hd. destruct (int_cases s Hd) as (_ & _ & Hbig).
    destruct (Hbig Hlim) as [msg ->]. now exists msg.
Qed.

(** The examples of the design document. *)
Lemma parse_no_tools_example :
  parse_tool_calls "no tools mentioned" = Returned [].
Proof. vm_compute. reflexivity. Qed.

Lemma parse_route_example :
  parse_tool_calls
    ("TOOL_CALL: analyze_route_performance(route="
     ++ dq ++ "Route A" ++ dq ++ ")")
  = Returned [ToolCall "analyze_route_performance"
                [("route", PStr "Route A")]].
Proof. vm_compute. reflexivity. Qed.

Lemma parse_empty_arguments_example :
  parse_tool_calls "TOOL_CALL: get_dataset_summary()"
  = Returned [ToolCall "get_dataset_summary" []].
Proof. vm_compute. reflexivity. Qed.

(** Malformed calls are passed over: a name that is cut short by a
    character outside the word class, the marker in lower case, no closing
    parenthesis up to the end of the text. *)
Lemma parse_malformed_example :
  parse_tool_calls
    "TOOL_CALL: my-tool() and tool_call: f() and TOOL_CALL: analyze_delays("
  = Returned [].
Proof. vm_compute. reflexivity. Qed.

(** An integer and a string. *)
Lemma parse_time_period_example :
  parse_tool_calls
    ("TOOL_CALL: analyze_by_time_period(year=2024, month="
     ++ dq ++ "Oct" ++ dq ++ ")")
  = Returned [ToolCall "analyze_by_time_period"
                [("year", PInt 2024); ("month", PStr "Oct")]].
Proof. vm_compute. reflexivity. Qed.

(** C4. The raw value made of the one character U+00B2 has nothing to
    strip, is not [none] and is not made of decimal digits, yet it does
    not stay a string: [isdigit] accepts it, [int] rejects it, and
    [coerce] raises [ValueError]. *)
Theorem coerce_superscript_digit :
  strip_value sup2 = sup2
  /\ lower sup2 <> "none"
  /\ forallb_str isdecimal sup2 = false
  /\ isdigit sup2 = true
  /\ coerce sup2
     = Raised (ValueError
                 ("invalid literal for int() with base 10: '" ++ sup2 ++ "'")).
Proof. repeat split; try reflexivity. discriminate. Qed.

(** C7. On a text whose tool call has the argument value U+00B2,
    [parse_tool_calls] does not return a list: it raises [ValueError]. *)
Theorem parse_tool_calls_raises :
  parse_tool_calls ("TOOL_CALL: search_shipments(query=" ++ sup2 ++ ")")
  = Raised (ValueError
              ("invalid literal for int() with base 10: '" ++ sup2 ++ "'")).
Proof. vm_compute. reflexivity. Qed.

(** C1. A text with two occurrences of the tool pattern, the second with
    the argument value U+00B3: the pattern finds both, in order, but
    [parse_tool_calls] raises [ValueError] and returns no invocation for
    either. *)
Theorem parse_tool_calls_loses_occurrences :
  let sup3 := String "179" EmptyString in
  let text :=
    ("Let me check. TOOL_CALL: get_dataset_summary() and then "
     ++ "TOOL_CALL: analyze_by_time_period(year=" ++ sup3 ++ ")")%string in
  pairs (Re.findall tool_pattern text)
  = [("get_dataset_summary", "");
     ("analyze_by_time_period", ("year=" ++ sup3)%string)]
  /\ parse_tool_calls text
     = Raised (ValueError
                 ("invalid literal for int() with base 10: '" ++ sup3 ++ "'")).
Proof. split; vm_compute; reflexivity. Qed.

(** ** What the matcher captures *)

(** Captures and rests are cut out of the subject, so they are made of
    its characters. *)
Section Alphabet.
Variable P : ascii -> bool.

Lemma over_cons (c : ascii) (s : string) : over P (String c s) -> P c = true /\ over P s.
Proof. unfold over. simpl. intro H. now apply andb_prop in H. Qed.

Lemma over_tail (c : ascii) (s : string) : over P (String c s) -> over P s.
Proof. intro H. now apply over_cons in H. Qed.

Lemma over_substring (s : string) :
  over P s -> forall n m, over P (substring n m s).
Proof.
  unfold over. induction s as [|c s IH]; intros Hs n m.
  - now destruct n, m.
  - simpl in Hs. apply andb_prop in Hs as [Hc Hs].
    destruct n as [|n]; destruct m as [|m]; simpl; try reflexivity.
    + now rewrite Hc, (IH Hs 0 m).
    + apply (IH Hs n 0).
    + apply (IH Hs n (S m)).
Qed.

Lemma star_over (p : ascii -> bool) (h : Re.hit) :
  forall (s : string) (k : string -> option Re.hit),
    over P s ->
    (forall s', over P s' -> k s' = Some h -> over_hit P h) ->
    Re.star p s k = Some h -> over_hit P h.
Proof.
  induction s as [|c s IH]; intros k Hs Hk; simpl.
  - now apply Hk.
  - destruct (p c); [|now apply Hk].
    unfold Re.orelse. destruct (Re.star p s k) as [h'|] eqn:Hstar.
    + intro Heq. injection Heq as <-.
      apply (IH k (over_tail _ _ Hs) Hk Hstar).
    + now apply Hk.
Qed.

Lemma lazy_over (p : ascii -> bool) (h : Re.hit) :
  forall (s : string) (k : string -> option Re.hit),
    over P s ->
    (forall s', over P s' -> k s' = Some h -> over_hit P h) ->
    Re.lazy p s k = Some h -> over_hit P h.
Proof.
  induction s as [|c s IH]; intros k Hs Hk; simpl.
  - destruct (k "") eqn:Hk0; [|discriminate].
    intro Heq. injection Heq as ->. now apply (Hk "").
  - destruct (k (String c s)) eqn:Hk0.
    + intro Heq. injection Heq as ->. now apply (Hk (String c s)).
    + destruct (p c); [|discriminate].
      apply (IH k (over_tail _ _ Hs) Hk).
Qed.

Lemma run_over (h : Re.hit) (r : Re.regex) :
  forall (s : string) (caps : list string)
         (k : string -> list string -> option Re.hit),
    over P s -> Forall (over P) caps ->
    (forall s' caps', over P s' -> Forall (over P) caps' ->
                      k s' caps' = Some h -> over_hit P h) ->
    Re.run r s caps k = Some h -> over_hit P h.
Proof.
  induction r as [c|p| |r1 IH1 r2 IH2|r1 IH1 r2 IH2|p|p|p|p|r1 IH1];
    intros s caps k Hs Hcaps Hk; cbn [Re.run].
  - destruct s as [|c' s]; [discriminate|].
    destruct (Ascii.eqb c c'); [|discriminate].
    apply Hk; [now apply over_tail in Hs | exact Hcaps].
  - destruct s as [|c' s]; [discriminate|].
    destruct (p c'); [|discriminate].
    apply Hk; [now apply over_tail in Hs | exact Hcaps].
  - destruct s as [|c [|c' s]]; try discriminate.
    + now apply Hk.
    + destruct (Ascii.eqb c "010"); [|discriminate]. now apply Hk.
  - apply IH1; [exact Hs | exact Hcaps|].
    intros s1 caps1 Hs1 Hcaps1. now apply IH2.
  - unfold Re.orelse. destruct (Re.run r1 s caps k) as [h'|] eqn:H1.
    + intro Heq. injection Heq as <-. now apply (IH1 s caps k).
    + now apply IH2.
  - apply star_over; [exact Hs|]. intros s' Hs'. now apply Hk.
  - destruct s as [|c' s]; [discriminate|].
    destruct (p c'); [|discriminate].
    apply star_over; [now apply over_tail in Hs|]. intros s' Hs'. now apply Hk.
  - apply lazy_over; [exact Hs|]. intros s' Hs'. now apply Hk.
  - destruct s as [|c' s]; [now apply Hk|].
    destruct (p c'); [|now apply Hk].
    unfold Re.orelse. destruct (k s caps) as [h'|] eqn:H1.
    + intro Heq. injection Heq as <-.
      apply (Hk s caps); [now apply over_tail in Hs | exact Hcaps | exact H1].
    + now apply Hk.
  - apply IH1; [exact Hs | exact Hcaps|].
    intros s' caps' Hs' Hcaps'. apply Hk; [exact Hs'|].
    apply Forall_app. split; [exact Hcaps'|].
    constructor; [|constructor]. now apply over_substring.
Qed.

Lemma match_at_over (r : Re.regex) (s : string) (h : Re.hit) :
  over P s -> Re.match_at r s = Some h -> over_hit P h.
Proof.
  intros Hs. unfold Re.match_at. apply run_over; [exact Hs | constructor|].
  intros s' caps' Hs' Hcaps' Heq. injection Heq as <-. now split.
Qed.

Lemma findall_from_over (r : Re.regex) (fuel : nat) :
  forall s, over P s -> Forall (Forall (over P)) (Re.findall_from fuel r s).
Proof.
  induction fuel as [|fuel IH]; intros s Hs; cbn [Re.findall_from];
    [constructor|].
  assert (Hskip : Forall (Forall (over P))
                    match s with
                    | EmptyString => []
                    | String _ s' => Re.findall_from fuel r s'
                    end).
  { destruct s as [|c s']; [constructor|]. apply IH. now apply over_tail in Hs. }
  destruct (Re.match_at r s) as [[caps rest]|] eqn:Hm; [|exact Hskip].
  destruct (match_at_over r s _ Hs Hm) as [Hcaps Hrest]. simpl in Hcaps, Hrest.
  constructor; [exact Hcaps|].
  destruct (Nat.ltb (String.length rest) (String.length s));
    [now apply IH | exact Hskip].
Qed.

Lemma pairs_over (ms : list (list string)) :
  Forall (Forall (over P)) ms ->
  Forall (fun p => over P (fst p) /\ over P (snd p)) (pairs ms).
Proof.
  induction 1 as [|caps ms Hcaps _ IH]; simpl; constructor; [|exact IH].
  simpl. split.
  - destruct caps as [|a caps]; [reflexivity|]. now inversion Hcaps.
  - destruct caps as [|a [|b caps]]; try reflexivity.
    inversion Hcaps as [|? ? _ Hb]. now inversion Hb.
Qed.

Lemma lstrip_over (p : ascii -> bool) (s : string) : over P s -> over P (lstrip p s).
Proof.
  induction s as [|c s IH]; simpl; [easy|]. intro Hs.
  destruct (p c); [apply IH; now apply over_tail in Hs | exact Hs].
Qed.

Lemma rstrip_over (p : ascii -> bool) (s : string) : over P s -> over P (rstrip p s).
Proof.
  induction s as [|c s IH]; simpl; [easy|]. intro Hs.
  apply over_cons in Hs as [Hc Hs]. specialize (IH Hs).
  destruct (rstrip p s) as [|c' r].
  - destruct (p c); [reflexivity|]. unfold over. simpl. now rewrite Hc.
  - unfold over in *. simpl in *. now rewrite Hc, IH.
Qed.

Lemma strip_value_over (s : string) : over P s -> over P (strip_value s).
Proof.
  intro Hs. unfold strip_value, strip_char, strip.
  repeat (apply rstrip_over || apply lstrip_over). exact Hs.
Qed.

End Alphabet.

(** ** What the matcher captures, in general *)

(** The same for any property of strings that the empty string has and
    that passes from a string to its tail and to its substrings. *)
Section Closed.
Variable Q : string -> Prop.
Hypothesis Q_empty : Q EmptyString.
Hypothesis Q_tail : forall c s, Q (String c s) -> Q s.
Hypothesis Q_substring : forall s, Q s -> forall n m, Q (substring n m s).

Lemma star_closed (p : ascii -> bool) (h : Re.hit) :
  forall (s : string) (k : string -> option Re.hit),
    Q s ->
    (forall s', Q s' -> k s' = Some h -> Forall Q (fst h) /\ Q (snd h)) ->
    Re.star p s k = Some h -> Forall Q (fst h) /\ Q (snd h).
Proof.
  induction s as [|c s IH]; intros k Hs Hk; simpl.
  - now apply Hk.
  - destruct (p c); [|now apply Hk].
    unfold Re.orelse. destruct (Re.star p s k) as [h'|] eqn:Hstar.
    + intro Heq. injection Heq as <-.
      apply (IH k (Q_tail _ _ Hs) Hk Hstar).
    + now apply Hk.
Qed.

Lemma lazy_closed (p : ascii -> bool) (h : Re.hit) :
  forall (s : string) (k : string -> option Re.hit),
    Q s ->
    (forall s', Q s' -> k s' = Some h -> Forall Q (fst h) /\ Q (snd h)) ->
    Re.lazy p s k = Some h -> Forall Q (fst h) /\ Q (snd h).
Proof.
  induction s as [|c s IH]; intros k Hs Hk; simpl.
  - destruct (k "") eqn:Hk0; [|discriminate].
    intro Heq. injection Heq as ->. now apply (Hk "").
  - destruct (k (String c s)) eqn:Hk0.
    + intro Heq. injection Heq as ->. now apply (Hk (String c s)).
    + destruct (p c); [|discriminate].
      apply (IH k (Q_tail _ _ Hs) Hk).
Qed.

Lemma run_closed (h : Re.hit) (r : Re.regex) :
  forall (s : string) (caps : list string)
         (k : string -> list string -> option Re.hit),
    Q s -> Forall Q caps ->
    (forall s' caps', Q s' -> Forall Q caps' ->
                      k s' caps' = Some h -> Forall Q (fst h) /\ Q (snd h)) ->
    Re.run r s caps k = Some h -> Forall Q (fst h) /\ Q (snd h).
Proof.
  induction r as [c|p| |r1 IH1 r2 IH2|r1 IH1 r2 IH2|p|p|p|p|r1 IH1];
    intros s caps k Hs Hcaps Hk; cbn [Re.run].
  - destruct s as [|c' s]; [discriminate|].
    destruct (Ascii.eqb c c'); [|discriminate].
    apply Hk; [now apply Q_tail in Hs | exact Hcaps].
  - destruct s as [|c' s]; [discriminate|].
    destruct (p c'); [|discriminate].
    apply Hk; [now apply Q_tail in Hs | exact Hcaps].
  - destruct s as [|c [|c' s]]; try discriminate.
    + now apply Hk.
    + destruct (Ascii.eqb c "010"); [|discriminate]. now apply Hk.
  - apply IH1; [exact Hs | exact Hcaps|].
    intros s1 caps1 Hs1 Hcaps1. now apply IH2.
  - unfold Re.orelse. destruct (Re.run r1 s caps k) as [h'|] eqn:H1.
    + intro Heq. injection Heq as <-. now apply (IH1 s caps k).
    + now apply IH2.
  - apply star_closed; [exact Hs|]. intros s' Hs'. now apply Hk.
  - destruct s as [|c' s]; [discriminate|].
    destruct (p c'); [|discriminate].
    apply star_closed; [now apply Q_tail in Hs|]. intros s' Hs'.
    now apply Hk.
  - apply lazy_closed; [exact Hs|]. intros s' Hs'. now apply Hk.
  - destruct s as [|c' s]; [now apply Hk|].
    destruct (p c'); [|now apply Hk].
    unfold Re.orelse. destruct (k s caps) as [h'|] eqn:H1.
    + intro Heq. injection Heq as <-.
      apply (Hk s caps); [now apply Q_tail in Hs | exact Hcaps | exact H1].
    + now apply Hk.
  - apply IH1; [exact Hs | exact Hcaps|].
    intros s' caps' Hs' Hcaps'. apply Hk; [exact Hs'|].
    apply Forall_app. split; [exact Hcaps'|].
    constructor; [|constructor]. now apply Q_substring.
Qed.

Lemma match_at_closed (r : Re.regex) (s : string) (h : Re.hit) :
  Q s -> Re.match_at r s = Some h -> Forall Q (fst h) /\ Q (snd h).
Proof.
  intros Hs. unfold Re.match_at. apply run_closed; [exact Hs | constructor|].
  intros s' caps' Hs' Hcaps' Heq. injection Heq as <-. now split.
Qed.

Lemma findall_from_closed (r : Re.regex) (fuel : nat) :
  forall s, Q s -> Forall (Forall Q) (Re.findall_from fuel r s).
Proof.
  induction fuel as [|fuel IH]; intros s Hs; cbn [Re.findall_from];
    [constructor|].
  assert (Hskip : Forall (Forall Q)
                    match s with
                    | EmptyString => []
                    | String _ s' => Re.findall_from fuel r s'
                    end).
  { destruct s as [|c s']; [constructor|]. apply IH. now apply Q_tail in Hs. }
  destruct (Re.match_at r s) as [[caps rest]|] eqn:Hm; [|exact Hskip].
  destruct (match_at_closed r s _ Hs Hm) as [Hcaps Hrest].
  simpl in Hcaps, Hrest.
  constructor; [exact Hcaps|].
  destruct (Nat.ltb (String.length rest) (String.length s));
    [now apply IH | exact Hskip].
Qed.

Lemma pairs_closed (ms : list (list string)) :
  Forall (Forall Q) ms ->
  Forall (fun p => Q (fst p) /\ Q (snd p)) (pairs ms).
Proof.
  induction 1 as [|caps ms Hcaps _ IH]; simpl; constructor; [|exact IH].
  simpl. split.
  - destruct caps as [|a caps]; [exact Q_empty|]. now inversion Hcaps.
  - destruct caps as [|a [|b caps]]; try exact Q_empty.
    inversion Hcaps as [|? ? _ Hb]. now inversion Hb.
Qed.

Lemma lstrip_closed (p : ascii -> bool) (s : string) :
  Q s -> Q (lstrip p s).
Proof.
  induction s as [|c s IH]; simpl; [easy|]. intro Hs.
  destruct (p c); [apply IH; now apply Q_tail in Hs | exact Hs].
Qed.

Lemma rstrip_prefix (p : ascii -> bool) (s : string) :
  exists n, rstrip p s = substring 0 n s.
Proof.
  induction s as [|c s [n IH]]; simpl.
  - now exists 0.
  - destruct (rstrip p s) as [|c' r] eqn:Hr.
    + destruct (p c); [now exists 0|]. exists 1. simpl.
      now destruct s.
    + exists (S n). simpl. now rewrite <- IH.
Qed.

Lemma rstrip_closed (p : ascii -> bool) (s : string) :
  Q s -> Q (rstrip p s).
Proof.
  intro Hs. destruct (rstrip_prefix p s) as [n ->]. now apply Q_substring.
Qed.

Lemma strip_value_closed (s : string) : Q s -> Q (strip_value s).
Proof.
  intro Hs. unfold strip_value, strip_char, strip.
  repeat (apply rstrip_closed || apply lstrip_closed). exact Hs.
Qed.

End Closed.

(** ** The parser returns on plain texts within the digit limit *)

Lemma plain_digits_decimal (s : string) :
  over plain s -> forallb_str isdigit_char s = true ->
  forallb_str isdecimal s = true.
Proof.
  unfold over. induction s as [|c s IH]; simpl; [reflexivity|].
  intros Hp Hd. apply andb_prop in Hp as [Hpc Hp].
  apply andb_prop in Hd as [Hdc Hd]. rewrite (IH Hp Hd), andb_true_r.
  unfold plain in Hpc. rewrite Hdc in Hpc. exact Hpc.
Qed.

Lemma substring_length (s : string) :
  forall n m, String.length (substring n m s) <= String.length s.
Proof.
  induction s as [|c s IH]; intros n m.
  - destruct n, m; simpl; lia.
  - destruct n as [|n]; destruct m as [|m]; simpl; try lia.
    + specialize (IH 0 m). lia.
    + specialize (IH n 0). lia.
    + specialize (IH n (S m)). lia.
Qed.

Lemma readable_empty : readable EmptyString.
Proof. split; [reflexivity|]. unfold short, int_max_str_digits. simpl. lia. Qed.

Lemma readable_tail (c : ascii) (s : string) :
  readable (String c s) -> readable s.
Proof.
  intros [Hp Hs]. split; [now apply over_tail in Hp|].
  unfold short in *. simpl in Hs. lia.
Qed.

Lemma readable_substring (s : string) :
  readable s -> forall n m, readable (substring n m s).
Proof.
  intros [Hp Hs] n m. split; [now apply over_substring|].
  unfold short in *. pose proof (substring_length s n m). lia.
Qed.

Lemma coerce_plain (raw : string) :
  readable raw -> exists v, coerce raw = Returned v.
Proof.
  intro Hraw.
  apply (strip_value_closed readable readable_tail readable_substring)
    in Hraw.
  destruct Hraw as [Hp Hs]. unfold coerce.
  destruct (String.eqb (lower (strip_value raw)) "none"); [now eexists|].
  destruct (isdigit (strip_value raw)) eqn:Hd; [|now eexists].
  assert (Hdec : forallb_str isdecimal (strip_value raw) = true).
  { apply plain_digits_decimal; [exact Hp|].
    unfold isdigit in Hd. now destruct (strip_value raw). }
  destruct (int_cases _ Hd) as [Hok _]. rewrite Hok; [now eexists| |exact Hdec].
  rewrite (decimal_prefix_all _ Hdec). exact Hs.
Qed.

Lemma fill_params_plain (fragments : list (string * string)) :
  Forall (fun p => readable (fst p) /\ readable (snd p)) fragments ->
  forall d, exists d', fill_params fragments d = Returned d'.
Proof.
  induction 1 as [|[k raw] rest [_ Hraw] _ IH]; intro d; simpl.
  - now eexists.
  - destruct (coerce_plain raw Hraw) as [v ->]. apply IH.
Qed.

Lemma parse_params_plain (body : string) :
  readable body -> exists d, parse_params body = Returned d.
Proof.
  intro Hb. rewrite parse_params_fill. apply fill_params_plain.
  apply (pairs_closed readable readable_empty). unfold Re.findall.
  now apply (findall_from_closed readable readable_tail readable_substring).
Qed.

Lemma collect_calls_plain (matches : list (string * string)) :
  Forall (fun p => readable (fst p) /\ readable (snd p)) matches ->
  forall acc, exists calls, collect_calls matches acc = Returned calls.
Proof.
  induction 1 as [|[name body] rest [_ Hbody] _ IH]; intro acc; simpl.
  - now eexists.
  - destruct (parse_params_plain body Hbody) as [d ->]. apply IH.
Qed.

(** On a text without the three superscript digits and of at most 4300
    characters, so on every ASCII text of that length, [parse_tool_calls]
    returns. *)
Theorem parse_tool_calls_plain (text : string) :
  over plain text -> short text ->
  exists calls, parse_tool_calls text = Returned calls.
Proof.
  intros Ht Hs. unfold parse_tool_calls. apply collect_calls_plain.
  apply (pairs_closed readable readable_empty). unfold Re.findall.
  apply (findall_from_closed readable readable_tail readable_substring).
  now split.
Qed.

(** ** The matcher, construct by construct *)

Lemma length_append (a b : string) :
  String.length (a ++ b) = String.length a + String.length b.
Proof. induction a as [|c a IH]; simpl; [reflexivity | now rewrite IH]. Qed.

Lemma substring_prefix (a b : string) :
  substring 0 (String.length a) (a ++ b) = a.
Proof.
  induction a as [|c a IH]; simpl.
  - now destruct b.
  - now rewrite IH.
Qed.

Lemma consumed_app (a b : string) : Re.consumed (a ++ b) b = a.
Proof.
  unfold Re.consumed. rewrite length_append.
  replace (String.length a + String.length b - String.length b)
    with (String.length a) by lia.
  apply substring_prefix.
Qed.

Lemma run_lit_app (m : string) :
  forall s caps k, Re.run (Re.lit m) (m ++ s) caps k = k s caps.
Proof.
  induction m as [|c m IH]; intros s caps k.
  - simpl. now destruct s.
  - destruct m as [|c' m'].
    + simpl. now rewrite Ascii.eqb_refl.
    + change (Re.lit (String c (String c' m')))
        with (Re.Seq (Re.Chr c) (Re.lit (String c' m'))).
      cbn [Re.run]. change (String c (String c' m') ++ s)%string
        with (String c (String c' m' ++ s)).
      cbv beta iota. rewrite Ascii.eqb_refl. apply IH.
Qed.

Lemma run_lit_inv (m : string) :
  forall s caps k h,
    Re.run (Re.lit m) s caps k = Some h ->
    exists s', s = (m ++ s')%string /\ k s' caps = Some h.
Proof.
  induction m as [|c m IH]; intros s caps k h.
  - simpl. intro H. exists s. split; [reflexivity|]. now destruct s.
  - destruct m as [|c' m'].
    + simpl. destruct s as [|c0 s]; [discriminate|].
      destruct (Ascii.eqb_spec c c0) as [<-|]; [|discriminate].
      intro H. now exists s.
    + change (Re.lit (String c (String c' m')))
        with (Re.Seq (Re.Chr c) (Re.lit (String c' m'))).
      cbn [Re.run]. destruct s as [|c0 s]; [discriminate|].
      destruct (Ascii.eqb_spec c c0) as [<-|]; [|discriminate].
      intro H. destruct (IH _ _ _ _ H) as (s' & -> & Hk).
      now exists s'.
Qed.

Lemma star_det (p : ascii -> bool) (k : string -> option Re.hit) :
  (forall c s', p c = true -> k (String c s') = None) ->
  forall s, Re.star p s k = k (lstrip p s).
Proof.
  intros Hk. induction s as [|c s IH]; simpl; [reflexivity|].
  destruct (p c) eqn:Hc; [|reflexivity].
  rewrite IH, (Hk c s Hc). unfold Re.orelse. now destruct (k (lstrip p s)).
Qed.

Lemma lstrip_split (p : ascii -> bool) (s : string) :
  exists a, s = (a ++ lstrip p s)%string /\ forallb_str p a = true.
Proof.
  induction s as [|c s (a & Ha & Hp)]; simpl.
  - now exists EmptyString.
  - destruct (p c) eqn:Hc.
    + exists (String c a). simpl. rewrite Hc, Hp. split; [now f_equal|reflexivity].
    + now exists EmptyString.
Qed.

Lemma lstrip_head (p : ascii -> bool) (s : string) (c : ascii) (t : string) :
  lstrip p s = String c t -> p c = false.
Proof.
  induction s as [|c' s IH]; simpl; [discriminate|].
  destruct (p c') eqn:Hc; [exact IH|]. intro H. now injection H as <- _.
Qed.

Lemma lstrip_app (p : ascii -> bool) (a t : string) :
  forallb_str p a = true -> lstrip p (a ++ t) = lstrip p t.
Proof.
  induction a as [|c a IH]; simpl; [reflexivity|].
  intro H. apply andb_prop in H as [Hc Ha]. now rewrite Hc, IH.
Qed.

Lemma lazy_inv (p : ascii -> bool) (k : string -> option Re.hit) (h : Re.hit) :
  forall s,
    Re.lazy p s k = Some h ->
    exists a b,
      s = (a ++ b)%string /\ k b = Some h
      /\ forall a1 c a2, a = (a1 ++ String c a2)%string ->
                         k (String c a2 ++ b)%string = None.
Proof.
  induction s as [|c s IH]; simpl.
  - destruct (k "") eqn:Hk; [|discriminate]. intro H. injection H as ->.
    exists EmptyString, EmptyString. repeat split; [exact Hk|].
    intros [|? ?] ? ? ?; discriminate.
  - destruct (k (String c s)) eqn:Hk.
    + intro H. injection H as ->. exists EmptyString, (String c s).
      repeat split; [exact Hk|]. intros [|? ?] ? ? ?; discriminate.
    + destruct (p c); [|discriminate]. intro H.
      destruct (IH H) as (a & b & -> & Hb & Hmin).
      exists (String c a), b. repeat split; [exact Hb|].
      intros [|c1 a1] c' a2 Heq; simpl in Heq; injection Heq as -> ->.
      * exact Hk.
      * now apply (Hmin a1 c' a2).
Qed.

Lemma lazy_skip (p f : ascii -> bool) (k : string -> option Re.hit) :
  (forall c s', f c = true -> k (String c s') = None) ->
  forall a t,
    forallb_str f a = true -> forallb_str p a = true ->
    Re.lazy p (a ++ t) k = Re.lazy p t k.
Proof.
  intros Hk. induction a as [|c a IH]; intros t Hf Hp; [reflexivity|].
  simpl in Hf, Hp. apply andb_prop in Hf as [Hfc Hf].
  apply andb_prop in Hp as [Hpc Hp].
  change (String c a ++ t)%string with (String c (a ++ t)).
  cbn [Re.lazy]. rewrite (Hk c _ Hfc), Hpc. now apply IH.
Qed.

Lemma forallb_str_any (s : string) : forallb_str Re.any s = true.
Proof. induction s; simpl; auto. Qed.

Lemma forallb_str_positions (f : ascii -> bool) (s : string) :
  (forall a1 c a2, s = (a1 ++ String c a2)%string -> f c = true) ->
  forallb_str f s = true.
Proof.
  induction s as [|x s IH]; intro H; [reflexivity|].
  simpl. rewrite (H EmptyString x s eq_refl), IH; [reflexivity|].
  intros a1 c a2 Heq. apply (H (String x a1) c a2). simpl. now rewrite Heq.
Qed.

(** The scan never runs out of fuel: any amount above the length of the
    subject gives the same list. *)
Lemma findall_from_fuel (r : Re.regex) (fuel1 : nat) :
  forall (fuel2 : nat) (s : string),
    String.length s < fuel1 -> String.length s < fuel2 ->
    Re.findall_from fuel1 r s = Re.findall_from fuel2 r s.
Proof.
  induction fuel1 as [|fuel1 IH]; intros fuel2 s H1 H2; [lia|].
  destruct fuel2 as [|fuel2]; [lia|].
  cbn [Re.findall_from].
  assert (Hskip : match s with
                  | EmptyString => []
                  | String _ s' => Re.findall_from fuel1 r s'
                  end
                  = match s with
                    | EmptyString => []
                    | String _ s' => Re.findall_from fuel2 r s'
                    end).
  { destruct s as [|c s']; [reflexivity|]. simpl in H1, H2. apply IH; lia. }
  destruct (Re.match_at r s) as [[caps rest]|]; [|exact Hskip].
  f_equal.
  destruct (Nat.ltb (String.length rest) (String.length s)) eqn:Hlt;
    [|exact Hskip].
  apply Nat.ltb_lt in Hlt. apply IH; lia.
Qed.

(** [re.findall], unfolded once. *)
Lemma findall_step (r : Re.regex) (c : ascii) (s : string) :
  Re.findall r (String c s)
  = match Re.match_at r (String c s) with
    | Some (caps, rest) =>
        caps :: (if Nat.ltb (String.length rest) (S (String.length s))
                 then Re.findall r rest else Re.findall r s)
    | None => Re.findall r s
    end.
Proof.
  unfold Re.findall at 1.
  change (String.length (String c s)) with (S (String.length s)).
  set (n := S (String.length s)). cbn [Re.findall_from]. subst n.
  change (String.length (String c s)) with (S (String.length s)).
  destruct (Re.match_at r (String c s)) as [[caps rest]|]; [|reflexivity].
  f_equal.
  destruct (Nat.ltb (String.length rest) (S (String.length s))) eqn:Hlt;
    [|reflexivity].
  apply Nat.ltb_lt in Hlt. unfold Re.findall. apply findall_from_fuel; lia.
Qed.

(** ** The tool pattern *)

Lemma open_not_word : isword "(" = false.
Proof. reflexivity. Qed.

(** After the marker the pattern is deterministic up to the body: the
    whitespace and the name are the longest runs. *)
Lemma tool_pattern_after_marker (s1 : string) :
  Re.match_at tool_pattern (marker ++ s1)
  = match lstrip isspace s1 with
    | String c s2' =>
        if isword c then
          match lstrip isword s2' with
          | String o s4 =>
              if Ascii.eqb "(" o
              then Re.lazy Re.any s4
                     (close [Re.consumed (String c s2') (String o s4)] s4)
              else None
          | EmptyString => None
          end
        else None
    | EmptyString => None
    end.
Proof.
  unfold Re.match_at, tool_pattern. cbn [Re.run].
  rewrite (run_lit_app "TOOL_CALL:").
  rewrite star_det.
  2:{ intros c s' Hc. now rewrite (isspace_not_word c Hc). }
  destruct (lstrip isspace s1) as [|c s2']; [reflexivity|].
  destruct (isword c); [|reflexivity].
  rewrite star_det.
  2:{ intros o s' Ho. destruct (Ascii.eqb_spec "(" o) as [<-|]; [|reflexivity].
      now rewrite open_not_word in Ho. }
  destruct (lstrip isword s2') as [|o s4]; [reflexivity|].
  destruct (Ascii.eqb "(" o); [|reflexivity].
  reflexivity.
Qed.

Lemma match_at_tool_marker (s : string) (h : Re.hit) :
  Re.match_at tool_pattern s = Some h -> exists s1, s = (marker ++ s1)%string.
Proof.
  unfold Re.match_at, tool_pattern. cbn [Re.run]. intro H.
  destruct (run_lit_inv "TOOL_CALL:" _ _ _ _ H) as (s1 & -> & _).
  now exists s1.
Qed.

Lemma close_fails (caps : list string) (s4 : string) (c : ascii) (s' : string) :
  not_close c = true -> close caps s4 (String c s') = None.
Proof.
  unfold not_close, close. rewrite (Ascii.eqb_sym c ")").
  now destruct (Ascii.eqb ")" c).
Qed.

Lemma close_none (caps : list string) (s4 : string) (c : ascii) (s' : string) :
  close caps s4 (String c s') = None -> not_close c = true.
Proof.
  unfold not_close, close. rewrite (Ascii.eqb_sym c ")").
  now destruct (Ascii.eqb ")" c).
Qed.

Lemma tool_pattern_complete (s name body rest : string) :
  starts_call s name body rest ->
  Re.match_at tool_pattern s = Some ([name; body], rest).
Proof.
  intros (ws & -> & Hws & Hne & Hname & Hbody).
  rewrite tool_pattern_after_marker.
  rewrite (lstrip_app _ ws _ Hws).
  destruct name as [|c name]; [contradiction|].
  simpl in Hname. apply andb_prop in Hname as [Hc Hname].
  assert (Hsp : isspace c = false).
  { destruct (isspace c) eqn:E; [|reflexivity].
    now rewrite (isspace_not_word c E) in Hc. }
  change (String c name ++ "(" ++ body ++ ")" ++ rest)%string
    with (String c (name ++ "(" ++ body ++ ")" ++ rest)).
  cbn [lstrip]. rewrite Hsp, Hc.
  rewrite (lstrip_app _ name _ Hname).
  change ("(" ++ body ++ ")" ++ rest)%string
    with (String "(" (body ++ ")" ++ rest)).
  cbn [lstrip]. rewrite open_not_word, Ascii.eqb_refl.
  rewrite (lazy_skip Re.any not_close _ (close_fails _ _) body _ Hbody
             (forallb_str_any body)).
  change (")" ++ rest)%string with (String ")" rest).
  cbn [Re.lazy close]. rewrite Ascii.eqb_refl.
  change (String c (name ++ String "(" (body ++ String ")" rest)))
    with (String c name ++ String "(" (body ++ String ")" rest))%string.
  now rewrite !consumed_app.
Qed.

Lemma tool_pattern_sound (s : string) (caps : list string) (rest : string) :
  Re.match_at tool_pattern s = Some (caps, rest) ->
  exists name body, caps = [name; body] /\ starts_call s name body rest.
Proof.
  intro H. destruct (match_at_tool_marker _ _ H) as [s1 ->].
  rewrite tool_pattern_after_marker in H.
  destruct (lstrip_split isspace s1) as (ws & Hs1 & Hws).
  destruct (lstrip isspace s1) as [|c s2'] eqn:Hl1; [discriminate|].
  destruct (isword c) eqn:Hc; [|discriminate].
  destruct (lstrip_split isword s2') as (nm & Hs2 & Hnm).
  destruct (lstrip isword s2') as [|o s4] eqn:Hl2; [discriminate|].
  destruct (Ascii.eqb_spec "(" o) as [<-|]; [|discriminate].
  destruct (lazy_inv _ _ _ _ H) as (body & b & Hs4 & Hb & Hmin).
  unfold close in Hb. destruct b as [|cl r]; [discriminate|].
  destruct (Ascii.eqb_spec ")" cl) as [<-|]; [|discriminate].
  injection Hb as Hcaps Hrest. subst caps r.
  exists (String c nm), body. subst s4. rewrite Hs2 at 1.
  change (String c (nm ++ String "(" (body ++ String ")" rest)))
    with (String c nm ++ String "(" (body ++ String ")" rest))%string.
  rewrite !consumed_app. split; [reflexivity|].
  exists ws. split.
  - rewrite Hs1, Hs2. reflexivity.
  - split; [exact Hws|]. split; [discriminate|]. split.
    + simpl. now rewrite Hc, Hnm.
    + apply forallb_str_positions. intros a1 c0 a2 Heq.
      exact (close_none _ _ c0 (a2 ++ String ")" rest)%string
               (Hmin a1 c0 a2 Heq)).
Qed.

(** ** The scan for tool calls *)

Lemma starts_call_shorter (s name body rest : string) :
  starts_call s name body rest -> String.length rest < String.length s.
Proof.
  intros (ws & -> & _). rewrite !length_append. simpl. lia.
Qed.

Lemma starts_call_unique (s n1 b1 r1 n2 b2 r2 : string) :
  starts_call s n1 b1 r1 -> starts_call s n2 b2 r2 ->
  n1 = n2 /\ b1 = b2 /\ r1 = r2.
Proof.
  intros H1 H2. apply tool_pattern_complete in H1, H2.
  rewrite H1 in H2. now injection H2 as -> -> ->.
Qed.

Lemma tool_pattern_none (s : string) :
  Re.match_at tool_pattern s = None ->
  forall name body rest, ~ starts_call s name body rest.
Proof.
  intros Hnone name body rest H. apply tool_pattern_complete in H. congruence.
Qed.

Lemma findall_from_occurrences (fuel : nat) :
  forall s, String.length s < fuel ->
            occurrences s (pairs (Re.findall_from fuel tool_pattern s)).
Proof.
  induction fuel as [|fuel IH]; intros s Hlen; [lia|].
  cbn [Re.findall_from].
  destruct (Re.match_at tool_pattern s) as [[caps rest]|] eqn:Hm.
  - destruct (tool_pattern_sound _ _ _ Hm) as (name & body & -> & Hcall).
    pose proof (starts_call_shorter _ _ _ _ Hcall) as Hshort.
    apply Nat.ltb_lt in Hshort as Hltb. rewrite Hltb.
    cbn [pairs map nth]. apply (occ_here s name body rest); [exact Hcall|].
    apply IH. lia.
  - destruct s as [|c s]; [constructor|].
    apply occ_skip; [now apply tool_pattern_none|].
    apply IH. simpl in Hlen. lia.
Qed.

(** What [re.findall] returns for the tool pattern is the list of the
    occurrences of well-formed calls. *)
Theorem findall_tool_pattern_occurrences (text : string) :
  occurrences text (pairs (Re.findall tool_pattern text)).
Proof. apply findall_from_occurrences. lia. Qed.

Lemma occurrences_functional (s : string) (l1 l2 : list (string * string)) :
  occurrences s l1 -> occurrences s l2 -> l1 = l2.
Proof.
  intro H1. revert l2.
  induction H1 as [|s name body rest l Hcall _ IH|c s l Hno _ IH];
    intros l2 H2.
  - inversion H2 as [|? ? ? ? ? Hcall2|]; subst; [reflexivity|].
    destruct Hcall2 as (ws & Heq & _). discriminate Heq.
  - inversion H2 as [|? n2 b2 r2 ? Hcall2 Hocc2|? ? ? Hno2 Hocc2]; subst.
    + destruct Hcall as (ws & Heq & _). discriminate Heq.
    + destruct (starts_call_unique _ _ _ _ _ _ _ Hcall Hcall2) as (-> & -> & ->).
      f_equal. now apply IH.
    + now elim (Hno2 name body rest).
  - inversion H2 as [|? n2 b2 r2 ? Hcall2 Hocc2|? ? ? Hno2 Hocc2]; subst.
    + now elim (Hno n2 b2 r2).
    + now apply IH.
Qed.

(** X1. The parser works through the occurrences in order: whenever it
    returns, it returns one invocation per occurrence, in the order of the
    occurrences, each with the name of its occurrence and the arguments parsed
    from its body; and a text without occurrence gives the empty list. *)
Theorem parse_tool_calls_per_occurrence
    (text : string) (occs : list (string * string)) :
  occurrences text occs ->
  parse_tool_calls text = collect_calls occs []
  /\ (occs = [] -> parse_tool_calls text = Returned [])
  /\ (forall calls,
         parse_tool_calls text = Returned calls ->
         Forall2 (fun o c => tool_name c = fst o
                             /\ parse_params (snd o) = Returned (parameters c))
                 occs calls).
Proof.
  intro Hocc.
  assert (Heq : pairs (Re.findall tool_pattern text) = occs).
  { apply (occurrences_functional text); [|exact Hocc].
    apply findall_tool_pattern_occurrences. }
  unfold parse_tool_calls. rewrite Heq.
  split; [reflexivity|]. split; [now intros ->|].
  intros calls H. destruct (collect_calls_spec _ _ _ H) as (calls' & -> & HF).
  exact HF.
Qed.

(** ** The parser: invocations are made of the text *)

Lemma coerce_over (P : ascii -> bool) (raw : string) (v : pyval) :
  over P raw -> coerce raw = Returned v -> value_over P v.
Proof.
  intros Hraw. apply strip_value_over in Hraw. unfold coerce.
  destruct (String.eqb (lower (strip_value raw)) "none").
  - intro H. injection H as <-. exact I.
  - destruct (isdigit (strip_value raw)).
    + destruct (int (strip_value raw)); [|discriminate].
      intro H. injection H as <-. exact I.
    + intro H. injection H as <-. exact Hraw.
Qed.

Lemma fill_params_Forall (Q : string * pyval -> Prop) (R : string * string -> Prop) :
  (forall k raw v, R (k, raw) -> coerce raw = Returned v -> Q (k, v)) ->
  forall fragments, Forall R fragments ->
  forall d d', Forall Q d -> fill_params fragments d = Returned d' -> Forall Q d'.
Proof.
  intros HQ fragments HF.
  induction HF as [|[k raw] rest Hkr _ IH]; intros d d' Hd; simpl.
  - intro H. now injection H as <-.
  - destruct (coerce raw) as [v|e] eqn:Hco; [|discriminate].
    apply IH. induction Hd as [|[k0 v0] d H0 Hd IHd]; simpl.
    + constructor; [|constructor]. now apply (HQ k raw).
    + destruct (String.eqb_spec k k0) as [<-|Hne].
      * constructor; [now apply (HQ k raw) | exact Hd].
      * constructor; [exact H0 | exact IHd].
Qed.

(** X2. The parser invents nothing: the name, the keys and the string values
    of every invocation are made of characters of the text. *)
Theorem parse_tool_calls_over (P : ascii -> bool) (text : string)
    (calls : list tool_call) :
  over P text ->
  parse_tool_calls text = Returned calls ->
  Forall (call_over P) calls.
Proof.
  intros Htext Hparse. unfold parse_tool_calls in Hparse.
  destruct (collect_calls_spec _ _ _ Hparse) as (calls' & -> & HF).
  simpl.
  assert (Hm : Forall (fun p => over P (fst p) /\ over P (snd p))
                 (pairs (Re.findall tool_pattern text))).
  { apply pairs_over. unfold Re.findall. now apply findall_from_over. }
  clear Hparse. induction HF as [|[name body] c ms cs [Hname Hps] _ IH].
  - constructor.
  - inversion Hm as [|? ? [Hn Hb] Hm']; subst. simpl in *.
    constructor; [|now apply IH]. split; [now rewrite Hname|].
    rewrite parse_params_fill in Hps.
    apply (fill_params_Forall
             (fun kv => over P (fst kv) /\ value_over P (snd kv))
             (fun p => over P (fst p) /\ over P (snd p)))
      with (fragments := pairs (Re.findall param_pattern body)) (d := []).
    + intros k raw v [Hk Hraw] Hco. split; [exact Hk|].
      now apply (coerce_over P raw).
    + apply pairs_over. unfold Re.findall. now apply findall_from_over.
    + constructor.
    + exact Hps.
Qed.

(** ** The argument pattern *)


Lemma equal_not_word : isword "=" = false.
Proof. reflexivity. Qed.

(** After the key and the equals sign the pattern goes on with the value. *)
Lemma param_pattern_after_key (c : ascii) (s : string) :
  Re.match_at param_pattern (String c s)
  = if isword c then
      match lstrip isword s with
      | String e s1 =>
          if Ascii.eqb "=" e then
            let caps := [Re.consumed (String c s) (String e s1)] in
            match s1 with
            | String q s2 =>
                if Re.quote q
                then Re.orelse (Re.lazy Re.dot s2 (tail caps s2))
                               (Re.lazy Re.dot s1 (tail caps s1))
                else Re.lazy Re.dot s1 (tail caps s1)
            | EmptyString => Re.lazy Re.dot s1 (tail caps s1)
            end
          else None
      | EmptyString => None
      end
    else None.
Proof.
  unfold Re.match_at, param_pattern. cbn [Re.run].
  destruct (isword c); [|reflexivity].
  rewrite star_det.
  2:{ intros o s' Ho. destruct (Ascii.eqb_spec "=" o) as [<-|]; [|reflexivity].
      now rewrite equal_not_word in Ho. }
  destruct (lstrip isword s) as [|e s1]; [reflexivity|].
  destruct (Ascii.eqb "=" e); [|reflexivity].
  destruct s1 as [|q s2]; [reflexivity|].
  destruct (Re.quote q); reflexivity.
Qed.

Lemma run_seq (r1 r2 : Re.regex) (s : string) (caps : list string)
    (k : string -> list string -> option Re.hit) :
  Re.run (Re.Seq r1 r2) s caps k
  = Re.run r1 s caps (fun s1 caps1 => Re.run r2 s1 caps1 k).
Proof. reflexivity. Qed.














Lemma parse_tool_calls_over_witness :
  Forall (call_over (fun c => negb (Ascii.eqb c "034")))
    [ToolCall "search_shipments" [("query", PStr "route A"); ("n", PInt 3)]].
Proof.
  apply (parse_tool_calls_over _
           "TOOL_CALL: search_shipments(query='route A, delayed', n=3)");
    vm_compute; reflexivity.
Defined.

(** ** The parser: the prescribed format comes back *)

Lemma over_app (P : ascii -> bool) (a b : string) :
  over P (a ++ b) <-> over P a /\ over P b.
Proof.
  unfold over. induction a as [|c a IH]; simpl.
  - tauto.
  - rewrite andb_true_iff, IH, andb_true_iff. tauto.
Qed.

Lemma over_weaken (P Q : ascii -> bool) (s : string) :
  (forall c, P c = true -> Q c = true) -> over P s -> over Q s.
Proof.
  intro HPQ. unfold over. induction s as [|c s IH]; simpl; [easy|].
  rewrite !andb_true_iff. intros [Hc Hs]. split; [now apply HPQ | now apply IH].
Qed.

Lemma word_not_close (c : ascii) : isword c = true -> not_close c = true.
Proof.
  unfold not_close. destruct (Ascii.eqb_spec c ")") as [->|]; [|reflexivity].
  discriminate.
Qed.

Lemma clean_parts (c : ascii) :
  clean c = true ->
  Re.quote c = false /\ not_comma c = true /\ Re.dot c = true
  /\ not_close c = true.
Proof.
  unfold clean. rewrite !andb_true_iff, negb_true_iff. tauto.
Qed.

Lemma tail_fails (caps : list string) (s2 : string) (c : ascii) (s' : string) :
  clean c = true -> tail caps s2 (String c s') = None.
Proof.
  intro Hc. apply clean_parts in Hc as (Hq & Hcomma & Hdot & _).
  unfold tail. rewrite run_seq. cbn [Re.run]. rewrite Hq.
  unfold not_comma in Hcomma. rewrite negb_true_iff in Hcomma.
  rewrite (Ascii.eqb_sym "," c), Hcomma. unfold Re.orelse.
  unfold Re.dot in Hdot. rewrite negb_true_iff in Hdot.
  destruct s'; [now rewrite Hdot | reflexivity].
Qed.

Lemma lazy_here (p : ascii -> bool) (k : string -> option Re.hit)
    (s : string) (h : Re.hit) :
  k s = Some h -> Re.lazy p s k = Some h.
Proof. intro H. destruct s; simpl; now rewrite H. Qed.

Lemma clean_dot (s : string) : over clean s -> forallb_str Re.dot s = true.
Proof.
  apply (over_weaken clean Re.dot). intros c Hc. now apply clean_parts in Hc.
Qed.

(** A quoted fragment, followed by a comma or by the end, is matched
    whole: key and value come out as written. *)
Lemma param_match_quoted (k v : string) (t : string) :
  identifier k -> over clean v ->
  (Re.match_at param_pattern
     (k ++ "=" ++ dq ++ v ++ dq ++ String "," t)%string
   = Some ([k; v], t))
  /\ (Re.match_at param_pattern (k ++ "=" ++ dq ++ v ++ dq)%string
      = Some ([k; v], EmptyString)).
Proof.
  intros [Hne Hk] Hv. destruct k as [|c nm]; [contradiction|].
  unfold over in Hk. simpl in Hk. apply andb_prop in Hk as [Hc Hnm].
  assert (Hgen : forall tl h,
             tail [String c nm] (v ++ String "034" tl)%string
                  (String "034" tl) = Some h ->
             Re.match_at param_pattern
               (String c nm ++ "=" ++ dq ++ v ++ dq ++ tl)%string = Some h).
  { intros tl h Htl.
    change (String c nm ++ "=" ++ dq ++ v ++ dq ++ tl)%string
      with (String c (nm ++ String "=" (String "034" (v ++ String "034" tl)))).
    rewrite param_pattern_after_key, Hc.
    rewrite (lstrip_app _ nm _ Hnm). cbn [lstrip]. rewrite equal_not_word.
    rewrite Ascii.eqb_refl. cbv zeta.
    change (Re.quote "034") with true. cbv iota.
    change (String c (nm ++ String "=" (String "034" (v ++ String "034" tl))))
      with (String c nm ++ String "=" (String "034" (v ++ String "034" tl)))%string.
    rewrite consumed_app.
    rewrite (lazy_skip Re.dot clean _ (tail_fails _ _) v _ Hv (clean_dot v Hv)).
    rewrite (lazy_here _ _ _ h Htl). reflexivity. }
  split.
  - apply (Hgen (String "," t)). unfold tail. rewrite run_seq.
    cbn [Re.run]. change (Re.quote "034") with true. cbv iota.
    rewrite Ascii.eqb_refl. unfold Re.orelse.
    change (String "034" (String "," t)) with (dq ++ String "," t)%string.
    change (v ++ String "034" (String "," t))%string
      with (v ++ (dq ++ String "," t))%string.
    now rewrite consumed_app.
  - rewrite <- (append_nil_r dq) at 2.
    replace (String c nm ++ "=" ++ dq ++ v ++ dq ++ "")%string
      with (String c nm ++ "=" ++ dq ++ v ++ dq ++ EmptyString)%string
      by reflexivity.
    apply (Hgen EmptyString). unfold tail. rewrite run_seq.
    cbn [Re.run]. change (Re.quote "034") with true. cbv iota.
    unfold Re.orelse.
    change (String "034" EmptyString) with (dq ++ EmptyString)%string.
    now rewrite consumed_app.
Qed.

Lemma render_args_cons (a : string * string) (rest : list (string * string)) :
  render_args (a :: rest)
  = match rest with
    | [] => render_arg a
    | _ => (render_arg a ++ String "," (String " " (render_args rest)))%string
    end.
Proof. unfold render_args, join. simpl. now destruct rest. Qed.

Lemma space_not_word : isword " " = false.
Proof. reflexivity. Qed.

(** The argument pattern finds the fragments of a rendered argument list
    as they were written. *)
Lemma findall_render_args (args : list (string * string)) :
  Forall (fun kv => identifier (fst kv) /\ over clean (snd kv)) args ->
  pairs (Re.findall param_pattern (render_args args)) = args.
Proof.
  induction 1 as [|[k v] rest [Hk Hv] _ IH]; [reflexivity|].
  simpl in Hk, Hv. rewrite render_args_cons.
  destruct (param_match_quoted k v (String " " (render_args rest)) Hk Hv)
    as [Hcomma Hend].
  destruct k as [|c nm]; [now destruct Hk|].
  unfold render_arg. cbn [fst snd].
  destruct rest as [|a rest'].
  - change (String c nm ++ "=" ++ dq ++ v ++ dq)%string
      with (String c (nm ++ "=" ++ dq ++ v ++ dq)) in *.
    rewrite findall_step, Hend. reflexivity.
  - replace ((String c nm ++ "=" ++ dq ++ v ++ dq)
             ++ String "," (String " " (render_args (a :: rest'))))%string
      with (String c (nm ++ "=" ++ dq ++ v ++ dq
                      ++ String "," (String " " (render_args (a :: rest')))))
      by (rewrite !append_assoc; reflexivity).
    change (String c nm ++ "=" ++ dq ++ v ++ dq
            ++ String "," (String " " (render_args (a :: rest'))))%string
      with (String c (nm ++ "=" ++ dq ++ v ++ dq
                      ++ String "," (String " " (render_args (a :: rest')))))
      in Hcomma.
    rewrite findall_step, Hcomma.
    assert (Hlt : Nat.ltb (String.length (String " " (render_args (a :: rest'))))
                    (S (String.length
                          (nm ++ "=" ++ dq ++ v ++ dq
                           ++ String "," (String " " (render_args (a :: rest'))))))
                  = true).
    { apply Nat.ltb_lt. rewrite !length_append. simpl. lia. }
    rewrite Hlt. rewrite findall_step.
    rewrite (match_at_param_start " " _ space_not_word).
    cbn [pairs map nth]. f_equal. exact IH.
Qed.

Lemma render_args_no_close (args : list (string * string)) :
  Forall (fun kv => identifier (fst kv) /\ over clean (snd kv)) args ->
  over not_close (render_args args).
Proof.
  induction 1 as [|[k v] rest [[_ Hk] Hv] _ IH]; [reflexivity|].
  simpl in Hk, Hv.
  assert (Ha : over not_close (render_arg (k, v))).
  { unfold render_arg. cbn [fst snd]. rewrite !over_app.
    split; [exact (over_weaken _ _ _ word_not_close Hk)|].
    split; [reflexivity|]. split; [reflexivity|]. split; [|reflexivity].
    apply (over_weaken clean not_close); [|exact Hv].
    intros c Hc. now apply clean_parts in Hc. }
  rewrite render_args_cons. destruct rest as [|a rest']; [exact Ha|].
  rewrite over_app. split; [exact Ha|]. exact IH.
Qed.

Lemma set_absent {V} (d : Dict.t V) (k : string) (v : V) :
  ~ In k (Dict.keys d) -> Dict.set d k v = d ++ [(k, v)].
Proof.
  unfold Dict.keys. induction d as [|[k0 v0] d IH]; simpl; intro Hnot;
    [reflexivity|].
  destruct (String.eqb_spec k k0) as [->|Hne]; [tauto|].
  rewrite IH; [reflexivity | tauto].
Qed.

Lemma fill_params_distinct (args : list (string * string)) :
  forall (vals : list pyval) (d : Dict.t pyval),
    NoDup (map fst args) ->
    (forall k, In k (map fst args) -> ~ In k (Dict.keys d)) ->
    Forall2 (fun kv x => coerce (snd kv) = Returned x) args vals ->
    fill_params args d = Returned (d ++ combine (map fst args) vals).
Proof.
  induction args as [|[k raw] rest IH]; intros vals d Hnd Hfresh HF;
    inversion HF as [|? x ? vals' Hco HF']; subst; simpl.
  - now rewrite app_nil_r.
  - simpl in Hco. rewrite Hco.
    inversion Hnd as [|? ? Hnotin Hnd']; subst.
    rewrite set_absent by (apply Hfresh; now left).
    rewrite (IH vals' _ Hnd'); [now rewrite <- app_assoc | | exact HF'].
    intros k' Hin. unfold Dict.keys. rewrite map_app, in_app_iff. simpl.
    intros [Hd | [<- | []]].
    + apply (Hfresh k'); [now right | exact Hd].
    + now apply Hnotin.
Qed.

Lemma render_call_parses
    (name : string) (args : list (string * string)) (vals : list pyval) :
  identifier name ->
  Forall (fun kv => identifier (fst kv) /\ over clean (snd kv)) args ->
  NoDup (map fst args) ->
  Forall2 (fun kv x => coerce (snd kv) = Returned x) args vals ->
  parse_tool_calls (render_call name args)
  = Returned [ToolCall name (combine (map fst args) vals)].
Proof.
  intros [Hne Hname] Hargs Hnd Hvals.
  assert (Hocc : occurrences (render_call name args)
                   [(name, render_args args)]).
  { apply (occ_here _ name (render_args args) EmptyString); [|constructor].
    exists " ". repeat split; try assumption.
    now apply render_args_no_close. }
  assert (Heq : pairs (Re.findall tool_pattern (render_call name args))
                = [(name, render_args args)]).
  { apply (occurrences_functional (render_call name args)); [|exact Hocc].
    apply findall_tool_pattern_occurrences. }
  unfold parse_tool_calls. rewrite Heq.
  cbn [collect_calls]. rewrite parse_params_fill.
  rewrite (findall_render_args args Hargs).
  rewrite (fill_params_distinct args vals [] Hnd); [reflexivity| |exact Hvals].
  intros k _ [].
Qed.

(** X4. A call written in the prescribed format, with a name and keys of word
    characters, distinct keys, and values free of quotes, commas, line breaks
    and closing parentheses, is parsed back to exactly that invocation, each
    value coerced. *)
Theorem canonical_call_round_trip
    (name : string) (args : list (string * string)) (vals : list pyval) :
  identifier name ->
  Forall (fun kv => identifier (fst kv) /\ over clean (snd kv)) args ->
  NoDup (map fst args) ->
  Forall2 (fun kv x => coerce (snd kv) = Returned x) args vals ->
  parse_tool_calls (render_call name args)
  = Returned [ToolCall name (combine (map fst args) vals)].
Proof. exact (render_call_parses name args vals). Qed.

Lemma canonical_call_round_trip_witness :
  parse_tool_calls
    (render_call "analyze_by_time_period"
       [("month", "Oct"); ("year", "2024"); ("end_date", "none")])
  = Returned [ToolCall "analyze_by_time_period"
                [("month", PStr "Oct"); ("year", PInt 2024);
                 ("end_date", PNone)]].
Proof.
  apply (canonical_call_round_trip "analyze_by_time_period"
           [("month", "Oct"); ("year", "2024"); ("end_date", "none")]
           [PStr "Oct"; PInt 2024; PNone]).
  - split; [discriminate | reflexivity].
  - repeat constructor; discriminate.
  - repeat constructor; simpl; intuition discriminate.
  - repeat constructor.
Defined.

(** ** The request sent to the provider *)

Lemma convert_messages_spec (messages : list message) :
  forall acc sp,
    convert_messages messages acc sp
    = (acc ++ map to_gemini (filter (fun m => negb (is_system m)) messages),
       match last_system messages with Some s => Some s | None => sp end).
Proof.
  induction messages as [|msg rest IH]; intros acc sp; simpl.
  - now rewrite app_nil_r.
  - unfold is_system at 1. destruct (String.eqb (role msg) "system") eqn:Hsys.
    + rewrite IH. simpl. f_equal.
      unfold last_system. simpl. unfold is_system at 2. rewrite Hsys. simpl.
      destruct (rev (filter is_system rest)) as [|m l]; reflexivity.
    + rewrite IH. simpl. rewrite <- app_assoc. f_equal.
      unfold last_system. simpl. unfold is_system at 2. now rewrite Hsys.
Qed.

Lemma full_messages_unfold (messages : list message) :
  full_messages messages
  = lead (last_system messages)
    ++ map to_gemini (filter (fun m => negb (is_system m)) messages).
Proof.
  unfold full_messages. rewrite convert_messages_spec. simpl.
  destruct (last_system messages) as [[|c s]|]; reflexivity.
Qed.

(** X7. What goes to the provider: the non-system messages in their order,
    each as a user or a model turn, preceded by the content of the last system
    message as a user turn when that content is not empty. Earlier system
    messages are dropped. *)
Theorem full_messages_spec (messages : list message) :
  full_messages messages
  = lead (last_system messages)
    ++ map to_gemini (filter (fun m => negb (is_system m)) messages).
Proof. exact (full_messages_unfold messages). Qed.

Lemma rev_head_app {A} (l : list A) (x : A) : rev (l ++ [x]) = x :: rev l.
Proof. now rewrite rev_app_distr. Qed.

Lemma removelast_snoc {A} (l : list A) (x : A) : removelast (l ++ [x]) = l.
Proof. apply removelast_last. Qed.

(** X8. The prompt is the content of the last message that is not a system
    message, on a chat opened with everything before it. With no such message
    the system prompt itself is sent as the prompt, and with no system prompt
    either, indexing the empty list raises [IndexError] once the chat has been
    opened. *)
Theorem gemini_send_prompt (G : Genai) (n : nat) (messages : list message) :
  gemini_send G n messages
  = match start_chat G n (removelast (full_messages messages)) with
    | Raised e => Raised e
    | Returned chat =>
        match rev (filter (fun m => negb (is_system m)) messages) with
        | msg :: _ => chat (content msg)
        | [] =>
            match last_system messages with
            | Some (String c s) => chat (String c s)
            | _ => Raised (IndexError "list index out of range")
            end
        end
    end.
Proof.
  unfold gemini_send.
  destruct (start_chat G n (removelast (full_messages messages)))
    as [chat|e]; [|reflexivity].
  rewrite full_messages_unfold, rev_app_distr, <- map_rev.
  destruct (rev (filter (fun m => negb (is_system m)) messages))
    as [|msg l]; simpl.
  - destruct (last_system messages) as [[|c s]|]; reflexivity.
  - reflexivity.
Qed.

Lemma filter_no_system (history : list message) :
  Forall (fun m => role m <> "system") history ->
  filter (fun m => negb (is_system m)) history = history
  /\ filter is_system history = [].
Proof.
  induction 1 as [|m l Hm _ [IH1 IH2]]; [now split|].
  assert (Hs : is_system m = false).
  { unfold is_system. now destruct (String.eqb_spec (role m) "system"). }
  cbn [filter]. rewrite Hs. cbn [negb]. now rewrite IH1, IH2.
Qed.

Lemma full_messages_turn (sp : string) (body : list message) :
  sp <> EmptyString ->
  Forall (fun m => role m <> "system") body ->
  full_messages (Message "system" sp :: body)
  = GeminiMessage "user" [sp] :: map to_gemini body.
Proof.
  intros Hsp Hbody. rewrite full_messages_unfold.
  destruct (filter_no_system body Hbody) as [H1 H2].
  unfold last_system. simpl. rewrite H1, H2. simpl.
  destruct sp; [contradiction | reflexivity].
Qed.

(** X9. The two requests of a turn. With a non-empty system prompt and a
    history free of system messages, the first pass opens the chat on the
    system prompt, as a user turn, followed by the history, and sends the
    user's message; the second pass opens it on the same turns followed by the
    user's message and the first response as a model turn, and sends the tool
    results wrapped in the instruction. *)
Theorem gemini_requests_of_a_turn
    (G : Genai) (provider : string) (api_key : option string) (n : nat)
    (self : AgentService) (user_message : string)
    (conversation_history : list message)
    (initial_response tool_results : string) :
  system_prompt self <> EmptyString ->
  Forall (fun m => role m <> "system") conversation_history ->
  let service := create_service G provider api_key in
  let messages := first_messages self user_message conversation_history in
  let opening :=
    GeminiMessage "user" [system_prompt self]
    :: map to_gemini conversation_history in
  send service n messages
  = match start_chat G n opening with
    | Raised e => Raised e
    | Returned chat => chat user_message
    end
  /\ send service n
       ((messages ++ [Message "assistant" initial_response])
        ++ [Message "user" (tool_results_prompt tool_results)])
     = match start_chat G n
               (opening ++ [GeminiMessage "user" [user_message];
                            GeminiMessage "model" [initial_response]]) with
       | Raised e => Raised e
       | Returned chat => chat (tool_results_prompt tool_results)
       end.
Proof.
  intros Hsp Hhist service messages opening.
  unfold service. cbn [send create_service].
  assert (Hfull : forall tail_msgs,
             Forall (fun m => role m <> "system") tail_msgs ->
             full_messages
               (Message "system" (system_prompt self)
                :: conversation_history ++ tail_msgs)
             = opening ++ map to_gemini tail_msgs).
  { intros tail_msgs Ht. rewrite full_messages_turn; [|exact Hsp|].
    - unfold opening. now rewrite map_app.
    - apply Forall_app. now split. }
  split.
  - unfold gemini_send, messages, first_messages. cbn [app].
    rewrite (Hfull [Message "user" user_message]);
      [|repeat constructor; discriminate].
    cbn [map]. rewrite removelast_snoc, rev_head_app. reflexivity.
  - unfold gemini_send, messages, first_messages. cbn [app].
    rewrite <- !app_assoc. cbn [app].
    rewrite (Hfull [Message "user" user_message;
                    Message "assistant" initial_response;
                    Message "user" (tool_results_prompt tool_results)]);
      [|repeat constructor; discriminate].
    cbn [map].
    change (opening ++ [to_gemini (Message "user" user_message);
                        to_gemini (Message "assistant" initial_response);
                        to_gemini (Message "user"
                                     (tool_results_prompt tool_results))])
      with (opening ++ ([GeminiMessage "user" [user_message];
                         GeminiMessage "model" [initial_response]]
                        ++ [GeminiMessage "user"
                              [tool_results_prompt tool_results]])).
    rewrite app_assoc, removelast_snoc, rev_head_app. reflexivity.
Qed.

Lemma gemini_requests_of_a_turn_witness :
  send (create_service echo_genai "Gemini" (Some "key")) 0
    (first_messages demo_agent "And route B?"
       [Message "user" "How is route A?"; Message "assistant" "Fine."])
  = Returned "user,user,model>And route B?"
  /\ exists answer,
       send (create_service echo_genai "Gemini" (Some "key")) 1
         ((first_messages demo_agent "And route B?"
             [Message "user" "How is route A?"; Message "assistant" "Fine."]
           ++ [Message "assistant" "TOOL_CALL: analyze_route_performance()"])
          ++ [Message "user" (tool_results_prompt "Route B: 9 shipments")])
       = Returned answer.
Proof.
  destruct (gemini_requests_of_a_turn echo_genai "Gemini" (Some "key") 0
              demo_agent "And route B?"
              [Message "user" "How is route A?"; Message "assistant" "Fine."]
              "TOOL_CALL: analyze_route_performance()" "Route B: 9 shipments")
    as [H1 _]; [discriminate | repeat constructor; discriminate|].
  destruct (gemini_requests_of_a_turn echo_genai "Gemini" (Some "key") 1
              demo_agent "And route B?"
              [Message "user" "How is route A?"; Message "assistant" "Fine."]
              "TOOL_CALL: analyze_route_performance()" "Route B: 9 shipments")
    as [_ H2]; [discriminate | repeat constructor; discriminate|].
  split.
  - rewrite H1. reflexivity.
  - rewrite H2. eexists. reflexivity.
Defined.

(** X10. A system message inside the history takes the place of the agent's
    system prompt: the chat opens with the content of the last system message
    of the history, and the agent's prompt is sent nowhere. *)
Theorem history_system_message_wins
    (self : AgentService) (user_message : string)
    (conversation_history : list message) (c : ascii) (s : string) :
  last_system conversation_history = Some (String c s) ->
  full_messages (first_messages self user_message conversation_history)
  = GeminiMessage "user" [String c s]
    :: map to_gemini
         (filter (fun m => negb (is_system m)) conversation_history)
    ++ [GeminiMessage "user" [user_message]].
Proof.
  intro Hlast. rewrite full_messages_unfold.
  unfold first_messages. cbn [app].
  assert (Hls : last_system
                  (Message "system" (system_prompt self)
                   :: conversation_history ++ [Message "user" user_message])
                = Some (String c s)).
  { unfold last_system in *. cbn [filter]. unfold is_system at 1.
    cbn [role]. rewrite String.eqb_refl. rewrite filter_app. cbn [filter].
    unfold is_system at 2. cbn [role]. change (String.eqb "user" "system")
      with false. cbv iota. rewrite app_nil_r. cbn [rev].
    destruct (rev (filter is_system conversation_history)) as [|m l];
      [discriminate|]. exact Hlast. }
  rewrite Hls. cbn [lead app filter]. unfold is_system at 1. cbn [role].
  rewrite String.eqb_refl. cbn [negb]. rewrite filter_app, map_app.
  cbn [filter]. unfold is_system at 2. cbn [role].
  change (String.eqb "user" "system") with false. reflexivity.
Qed.

Lemma history_system_message_wins_witness :
  full_messages
    (first_messages demo_agent "Hello!"
       [Message "user" "Hi"; Message "system" "Answer in French."])
  = [GeminiMessage "user" ["Answer in French."];
     GeminiMessage "user" ["Hi"]; GeminiMessage "user" ["Hello!"]].
Proof.
  exact (history_system_message_wins demo_agent "Hello!"
           [Message "user" "Hi"; Message "system" "Answer in French."]
           "A" "nswer in French." eq_refl).
Defined.

(** X11. A service created without a key, or with an empty one, answers no
    request: the first call of [generate_response] raises the [ValueError] of
    the guard, [process_message] raises it in turn, and the provider is not
    reached, whatever it is. *)
Theorem service_without_key
    (G : Genai) (provider : string) (api_key : option string)
    (clock : nat -> string) (self : AgentService) (user_message : string)
    (conversation_history : list message) (w : list event) :
  api_key = None \/ api_key = Some EmptyString ->
  process_message (Env clock (create_service G provider api_key)) self
    user_message conversation_history w
  = (Raised (ValueError "Gemini service not initialized. Check API key."),
     w ++ [Generate (first_messages self user_message conversation_history)]).
Proof. intros [->| ->]; reflexivity. Qed.

Lemma service_without_key_witness :
  process_message (Env demo_clock (create_service echo_genai "Gemini" None))
    demo_agent "Hello!" [] []
  = (Raised (ValueError "Gemini service not initialized. Check API key."),
     [Generate [Message "system" "You are a logistics assistant.";
                Message "user" "Hello!"]]).
Proof.
  apply (service_without_key echo_genai "Gemini" None demo_clock demo_agent
           "Hello!" [] []).
  left. reflexivity.
Defined.

(** ** The chat loop *)

Lemma coerce_raises_ordinary (raw : string) (e : exn) :
  coerce raw = Raised e -> exn_ordinary e = true.
Proof.
  unfold coerce.
  destruct (String.eqb (lower (strip_value raw)) "none"); [discriminate|].
  destruct (isdigit (strip_value raw)); [|discriminate].
  destruct (int (strip_value raw)) as [z|e'] eqn:Hint; [discriminate|].
  intro H. injection H as <-. now apply (int_raised _ _ Hint).
Qed.

Lemma fill_params_raises_ordinary (fragments : list (string * string)) :
  forall d e, fill_params fragments d = Raised e -> exn_ordinary e = true.
Proof.
  induction fragments as [|[k raw] rest IH]; intros d e; simpl; [discriminate|].
  destruct (coerce raw) as [v|e'] eqn:Hco.
  - apply IH.
  - intro H. injection H as <-. now apply (coerce_raises_ordinary raw).
Qed.

Lemma collect_calls_raises_ordinary (matches : list (string * string)) :
  forall acc e, collect_calls matches acc = Raised e -> exn_ordinary e = true.
Proof.
  induction matches as [|[name body] rest IH]; intros acc e; simpl;
    [discriminate|].
  destruct (parse_params body) as [d|e'] eqn:Hp.
  - apply IH.
  - intro H. injection H as <-. rewrite parse_params_fill in Hp.
    now apply (fill_params_raises_ordinary _ _ _ Hp).
Qed.

(** The parser raises nothing but the [ValueError] of [int]. *)
Lemma parse_tool_calls_raises_ordinary (text : string) (e : exn) :
  parse_tool_calls text = Raised e -> exn_ordinary e = true.
Proof. apply collect_calls_raises_ordinary. Qed.

Lemma run_tool_calls_raises_ordinary (E : env) (tools : registry)
    (calls : list tool_call) :
  (forall name info kwargs e,
      Dict.get tools name = Some info ->
      Tool.function info kwargs = Raised e -> exn_ordinary e = true) ->
  forall results logs w e,
    fst (run_tool_calls E tools calls results logs w) = Raised e ->
    exn_ordinary e = true.
Proof.
  intro Htools. induction calls as [|c cs IH]; intros results logs w e;
    cbn [run_tool_calls].
  - discriminate.
  - unfold bind at 1. unfold now at 1. unfold bind at 1.
    unfold execute_tool.
    destruct (find reserved (Dict.keys (parameters c))) as [k|].
    + unfold raise. simpl. intro H. now injection H as <-.
    + rewrite (execute_tool_text tools c _
                 (fun info e' Hget => Htools _ info (parameters c) e' Hget)).
      apply IH.
Qed.

Lemma execute_tool_calls_raises_ordinary (E : env) (tools : registry)
    (calls : list tool_call) (w : list event) (e : exn) :
  (forall name info kwargs e,
      Dict.get tools name = Some info ->
      Tool.function info kwargs = Raised e -> exn_ordinary e = true) ->
  fst (execute_tool_calls E tools calls w) = Raised e ->
  exn_ordinary e = true.
Proof.
  intros Htools. unfold execute_tool_calls, bind.
  destruct (run_tool_calls E tools calls [] [] w) as [[st|e'] w'] eqn:Hrun.
  - discriminate.
  - simpl. intro H. injection H as <-.
    apply (run_tool_calls_raises_ordinary E tools calls Htools [] [] w).
    now rewrite Hrun.
Qed.

Lemma generate_response_raises_ordinary (E : env) (messages : list message)
    (w : list event) (e : exn) :
  (forall n messages e,
      send (llm_service E) n messages = Raised e -> exn_ordinary e = true) ->
  fst (generate_response E messages w) = Raised e -> exn_ordinary e = true.
Proof.
  intro Hllm. unfold generate_response.
  destruct (negb (available (llm_service E))); simpl.
  - intro H. now injection H as <-.
  - apply Hllm.
Qed.

(** With tame collaborators whatever [process_message] raises derives
    from [Exception]. *)
Lemma process_message_raises_ordinary
    (E : env) (self : AgentService) (user_message : string)
    (conversation_history : list message) (w : list event) (e : exn) :
  tame E self ->
  fst (process_message E self user_message conversation_history w) = Raised e ->
  exn_ordinary e = true.
Proof.
  intros [Hllm Htools]. unfold process_message, bind.
  rewrite generate_response_split.
  destruct (fst (generate_response E
                   (first_messages self user_message conversation_history) w))
    as [r1|e1] eqn:H1.
  - unfold lift.
    destruct (parse_tool_calls r1) as [calls|e2] eqn:H2.
    + destruct calls as [|c cs]; [discriminate|].
      destruct (execute_tool_calls E (tools self) (c :: cs)
                  (w ++ [Generate (first_messages self user_message
                                     conversation_history)]))
        as [[st|e3] w3] eqn:H3.
      * rewrite generate_response_split.
        destruct (fst (generate_response E _ w3)) as [r2|e4] eqn:H4.
        -- discriminate.
        -- simpl. intro H. injection H as <-.
           exact (generate_response_raises_ordinary E _ w3 e4 Hllm H4).
      * simpl. intro H. injection H as <-.
        eapply (execute_tool_calls_raises_ordinary E (tools self) (c :: cs));
          [exact Htools | rewrite H3; reflexivity].
    + simpl. intro H. injection H as <-.
      now apply (parse_tool_calls_raises_ordinary r1).
  - simpl. intro H. injection H as <-.
    exact (generate_response_raises_ordinary E _ w e1 Hllm H1).
Qed.

(** ** One turn of the chat *)

Lemma chat_turn_idle (E : env) (agent : AgentService)
    (chat_input : option string) (st : Session.t) (w : list event) :
  chat_input = None \/ chat_input = Some EmptyString ->
  chat_turn E agent chat_input st w = (Returned st, w).
Proof. intros [->| ->]; reflexivity. Qed.

Lemma chat_turn_cases (E : env) (agent : AgentService) (prompt : string)
    (st : Session.t) (w : list event) :
  prompt <> EmptyString ->
  chat_turn E agent (Some prompt) st w
  = match process_message E agent prompt (Session.messages st) w with
    | (Returned result, w') =>
        (Returned
           (Session.Make
              (Session.messages st
               ++ [Message "user" prompt;
                   Message "assistant" (fst (fst result))])
              (Session.tool_calls st ++ snd result)), w')
    | (Raised e, w') =>
        if exn_ordinary e
        then (Returned
                (Session.Make
                   (Session.messages st
                    ++ [Message "user" prompt;
                        Message "assistant" ("Error: " ++ exn_msg e)%string])
                   (Session.tool_calls st)), w')
        else (Raised e, w')
    end.
Proof.
  intro Hne. destruct prompt as [|c p]; [contradiction|].
  unfold chat_turn. rewrite removelast_last.
  unfold bind at 1. unfold try_except. unfold bind at 1.
  destruct (process_message E agent (String c p) (Session.messages st) w)
    as [[result|e] w'].
  - unfold ret. cbn [fst snd]. now rewrite <- app_assoc.
  - destruct (exn_ordinary e); [|reflexivity].
    unfold ret. cbn [fst snd]. now rewrite <- app_assoc.
Qed.

Lemma chat_turn_tame (E : env) (agent : AgentService) (prompt : string)
    (st : Session.t) (w : list event) :
  tame E agent ->
  prompt <> EmptyString ->
  exists (response : string) (logs : list log_entry) (w' : list event),
    chat_turn E agent (Some prompt) st w
    = (Returned
         (Session.Make
            (Session.messages st
             ++ [Message "user" prompt; Message "assistant" response])
            (Session.tool_calls st ++ logs)), w').
Proof.
  intros Htame Hne. rewrite (chat_turn_cases _ _ _ _ _ Hne).
  destruct (process_message E agent prompt (Session.messages st) w)
    as [[result|e] w'] eqn:Hp.
  - now exists (fst (fst result)), (snd result), w'.
  - rewrite (process_message_raises_ordinary E agent prompt
               (Session.messages st) w e Htame)
      by (now rewrite Hp).
    exists ("Error: " ++ exn_msg e)%string, [], w'.
    rewrite (app_nil_r (Session.tool_calls st)). reflexivity.
Qed.

(** X12. With tame collaborators a turn on a submitted, non-empty prompt
    never raises: the transcript gains exactly the user's message and one
    assistant message behind what it held, and the log of tool calls only
    grows at its end. *)
Theorem chat_turn_appends (E : env) (agent : AgentService) (prompt : string)
    (st : Session.t) (w : list event) :
  tame E agent ->
  prompt <> EmptyString ->
  exists (response : string) (logs : list log_entry) (w' : list event),
    chat_turn E agent (Some prompt) st w
    = (Returned
         (Session.Make
            (Session.messages st
             ++ [Message "user" prompt; Message "assistant" response])
            (Session.tool_calls st ++ logs)), w').
Proof. exact (chat_turn_tame E agent prompt st w). Qed.

(** X13. A turn on a submitted, non-empty prompt in which the agent raises
    an ordinary exception, whichever step raised it: the user's message
    stays in the transcript, the assistant message is the text of the
    exception behind [Error: ], and the log is left as it was, also when
    tools have already run. *)
Theorem chat_turn_failure (E : env) (agent : AgentService) (prompt : string)
    (st : Session.t) (w : list event) (e : exn) :
  prompt <> EmptyString ->
  fst (process_message E agent prompt (Session.messages st) w) = Raised e ->
  exn_ordinary e = true ->
  chat_turn E agent (Some prompt) st w
  = (Returned
       (Session.Make
          (Session.messages st
           ++ [Message "user" prompt;
               Message "assistant" ("Error: " ++ exn_msg e)%string])
          (Session.tool_calls st)),
     snd (process_message E agent prompt (Session.messages st) w)).
Proof.
  intros Hne Hraise Hord. rewrite (chat_turn_cases _ _ _ _ _ Hne).
  destruct (process_message E agent prompt (Session.messages st) w)
    as [[result|e'] w']; [discriminate|].
  simpl in Hraise. injection Hraise as ->. now rewrite Hord.
Qed.

(** ** Many turns *)

Lemma exchanges_snoc (l : list (string * string)) (u a : string) :
  exchanges (l ++ [(u, a)])
  = exchanges l ++ [Message "user" u; Message "assistant" a].
Proof. unfold exchanges. rewrite flat_map_app. reflexivity. Qed.

(** X14. Starting from a transcript made of exchanges, any number of runs
    of the script with tame collaborators ends: a run without a prompt, or
    with the empty one, changes nothing, and the transcript is the old
    exchanges followed by one exchange per submitted non-empty prompt, in
    their order; the log has only grown at its end. *)
Theorem chat_turns_dialogue (E : env) (agent : AgentService)
    (runs : list (option string)) :
  tame E agent ->
  forall (st : Session.t) (w : list event) (l0 : list (string * string)),
    Session.messages st = exchanges l0 ->
    exists (answers : list string) (logs : list log_entry) (w' : list event),
      List.length answers = List.length (submitted runs)
      /\ chat_turns E agent runs st w
         = (Returned
              (Session.Make
                 (exchanges (l0 ++ combine (submitted runs) answers))
                 (Session.tool_calls st ++ logs)), w').
Proof.
  intro Htame. induction runs as [|chat_input rest IH]; intros st w l0 Hst.
  - exists [], [], w. split; [reflexivity|]. simpl. unfold ret.
    rewrite !app_nil_r, <- Hst. now destruct st.
  - cbn [chat_turns]. unfold bind.
    destruct chat_input as [[|c p]|].
    + rewrite chat_turn_idle by now right. cbn [submitted]. now apply IH.
    + destruct (chat_turn_tame E agent (String c p) st w Htame)
        as (response & logs & w1 & ->); [discriminate|].
      destruct (IH (Session.Make
                      (Session.messages st
                       ++ [Message "user" (String c p);
                           Message "assistant" response])
                      (Session.tool_calls st ++ logs))
                   w1 (l0 ++ [(String c p, response)]))
        as (answers & logs' & w' & Hlen & ->).
      * simpl. now rewrite exchanges_snoc, Hst.
      * exists (response :: answers), (logs ++ logs'), w'.
        split; [simpl; now rewrite Hlen|].
        simpl. now rewrite <- !app_assoc.
    + rewrite chat_turn_idle by now left. cbn [submitted]. now apply IH.
Qed.

(** ** Events are only ever added *)

Lemma extends_ret {A} (a : A) : extends (ret a).
Proof. intro w. exists []. simpl. now rewrite app_nil_r. Qed.

Lemma extends_raise {A} (e : exn) : extends (@raise A e).
Proof. intro w. exists []. simpl. now rewrite app_nil_r. Qed.

Lemma extends_lift {A} (o : outcome A) : extends (lift o).
Proof. intro w. exists []. simpl. now rewrite app_nil_r. Qed.

Lemma extends_bind {A B} (m : M A) (f : A -> M B) :
  extends m -> (forall a, extends (f a)) -> extends (bind m f).
Proof.
  intros Hm Hf w. unfold bind. destruct (Hm w) as [r1 H1].
  destruct (m w) as [[a|e] w1]; simpl in H1; subst w1.
  - destruct (Hf a (w ++ r1)) as [r2 H2]. exists (r1 ++ r2).
    now rewrite H2, app_assoc.
  - now exists r1.
Qed.

Lemma extends_try_except {A} (m : M A) (h : exn -> M A) :
  extends m -> (forall e, extends (h e)) -> extends (try_except m h).
Proof.
  intros Hm Hh w. unfold try_except. destruct (Hm w) as [r1 H1].
  destruct (m w) as [[a|e] w1]; simpl in H1; subst w1.
  - now exists r1.
  - destruct (exn_ordinary e); [|now exists r1].
    destruct (Hh e (w ++ r1)) as [r2 H2]. exists (r1 ++ r2).
    now rewrite H2, app_assoc.
Qed.

Lemma extends_now (E : env) : extends (now E).
Proof. intro w. now eexists. Qed.

Lemma extends_invoke (name : string) (f : callable) (kwargs : Dict.t pyval) :
  extends (invoke name f kwargs).
Proof. intro w. unfold invoke. destruct (f kwargs); now eexists. Qed.

Lemma extends_generate_response (E : env) (messages : list message) :
  extends (generate_response E messages).
Proof. intro w. rewrite generate_response_events. now eexists. Qed.

Lemma extends_execute_tool (tools : registry) (name : string)
    (kwargs : Dict.t pyval) :
  extends (execute_tool_body tools name kwargs).
Proof.
  unfold execute_tool_body. destruct (Dict.get tools name) as [info|].
  - apply extends_try_except.
    + apply extends_bind; [apply extends_invoke|].
      intros [s|[|first items]];
        [apply extends_ret | apply extends_raise | apply extends_ret].
    + intro e. apply extends_ret.
  - apply extends_ret.
Qed.

Lemma extends_run_tool_calls (E : env) (tools : registry)
    (calls : list tool_call) :
  forall results logs, extends (run_tool_calls E tools calls results logs).
Proof.
  induction calls as [|c cs IH]; intros results logs; cbn [run_tool_calls].
  - apply extends_ret.
  - apply extends_bind; [apply extends_now|]. intro t.
    apply extends_bind; [|intro result; apply IH].
    unfold execute_tool.
    destruct (find reserved (Dict.keys (parameters c)));
      [apply extends_raise | apply extends_execute_tool].
Qed.

Lemma extends_execute_tool_calls (E : env) (tools : registry)
    (calls : list tool_call) :
  extends (execute_tool_calls E tools calls).
Proof.
  unfold execute_tool_calls.
  apply extends_bind; [apply extends_run_tool_calls|].
  intro st. apply extends_ret.
Qed.

(** ** What the provider is asked first *)

Lemma process_message_first_event
    (E : env) (self : AgentService) (user_message : string)
    (conversation_history : list message) (w : list event) :
  exists rest,
    snd (process_message E self user_message conversation_history w)
    = w ++ Generate (first_messages self user_message conversation_history)
           :: rest.
Proof.
  unfold process_message. unfold bind at 1.
  rewrite generate_response_split.
  set (w1 := w ++ [Generate (first_messages self user_message
                               conversation_history)]).
  assert (Hk : forall (A : Type) (m : M A),
             extends m ->
             exists rest,
               snd (m w1)
               = w ++ Generate (first_messages self user_message
                                  conversation_history) :: rest).
  { intros A m Hm. destruct (Hm w1) as [rest ->]. exists rest.
    unfold w1. now rewrite <- app_assoc. }
  destruct (fst (generate_response E _ w)) as [r1|e1].
  - apply Hk. apply extends_bind; [apply extends_lift|].
    intros [|c cs]; [apply extends_ret|].
    apply extends_bind; [apply extends_execute_tool_calls|]. intro st.
    apply extends_bind; [apply extends_generate_response|]. intro r2.
    apply extends_ret.
  - apply (Hk _ (raise e1)). apply extends_raise.
Qed.

(** X15. A run of the script without a prompt, or with the empty one,
    does nothing: no event, the session as it was.  On any other prompt,
    whatever happens next, the turn begins by asking the provider with the
    system prompt, then the transcript as it stood before the turn, then
    the new prompt, once. *)
Theorem chat_turn_first_request (E : env) (agent : AgentService)
    (chat_input : option string) (st : Session.t) (w : list event) :
  match chat_input with
  | Some (String c s) =>
      exists rest,
        snd (chat_turn E agent chat_input st w)
        = w ++ Generate (Message "system" (system_prompt agent)
                         :: Session.messages st
                            ++ [Message "user" (String c s)])
               :: rest
  | _ => chat_turn E agent chat_input st w = (Returned st, w)
  end.
Proof.
  destruct chat_input as [[|c s]|]; [reflexivity| |reflexivity].
  rewrite chat_turn_cases by discriminate.
  destruct (process_message_first_event E agent (String c s)
              (Session.messages st) w) as [rest Hrest].
  exists rest.
  destruct (process_message E agent (String c s) (Session.messages st) w)
    as [[result|e] w']; simpl in Hrest; subst w'.
  - reflexivity.
  - now destruct (exn_ordinary e).
Qed.

(** ** Scenarios *)

Lemma demo_tools_tame (name : string) (info : Tool.info)
    (kwargs : Dict.t pyval) (e : exn) :
  Dict.get (tools demo_agent) name = Some info ->
  Tool.function info kwargs = Raised e -> exn_ordinary e = true.
Proof.
  cbn [tools demo_agent _register_tools Dict.get].
  repeat (match goal with
          | |- context [String.eqb name ?k] => destruct (String.eqb name k)
          end;
          [intro H; injection H as <-; cbn; intro H; try discriminate H;
           injection H as <-; reflexivity |]).
  discriminate.
Qed.

Lemma summary_env_tame : tame summary_env demo_agent.
Proof.
  split.
  - intros [|n] messages e; discriminate.
  - exact demo_tools_tame.
Qed.

Lemma chat_turn_appends_witness :
  exists response logs w',
    chat_turn summary_env demo_agent (Some "How many shipments are there?")
      (Session.Make [] []) []
    = (Returned
         (Session.Make
            [Message "user" "How many shipments are there?";
             Message "assistant" response]
            logs), w').
Proof.
  apply (chat_turn_appends summary_env demo_agent
           "How many shipments are there?" (Session.Make [] []) []
           summary_env_tame).
  discriminate.
Defined.

Lemma chat_turn_failure_witness :
  fst (chat_turn flaky_env demo_agent (Some "How many shipments are there?")
         (Session.Make [] []) [])
  = Returned
      (Session.Make
         [Message "user" "How many shipments are there?";
          Message "assistant" "Error: 503 unavailable"]
         [])
  /\ In (Invoke "get_dataset_summary" [])
        (snd (chat_turn flaky_env demo_agent
                (Some "How many shipments are there?")
                (Session.Make [] []) [])).
Proof.
  rewrite (chat_turn_failure flaky_env demo_agent
             "How many shipments are there?" (Session.Make [] []) []
             (Exn "ServiceUnavailable" true "503 unavailable"));
    [|discriminate|reflexivity|reflexivity].
  split; [reflexivity|]. vm_compute. tauto.
Defined.

Lemma chat_turns_dialogue_witness :
  exists answers logs w',
    List.length answers = 2
    /\ chat_turns summary_env demo_agent
         [Some "How many shipments are there?"; None; Some ""; Some "Thanks!"]
         (Session.Make [] []) []
       = (Returned
            (Session.Make
               (exchanges
                  (combine ["How many shipments are there?"; "Thanks!"]
                           answers))
               logs), w').
Proof.
  exact (chat_turns_dialogue summary_env demo_agent
           [Some "How many shipments are there?"; None; Some "";
            Some "Thanks!"]
           summary_env_tame (Session.Make [] []) [] [] eq_refl).
Defined.

(** ** The tools' own arguments *)

Lemma get_In {V} (d : Dict.t V) (k : string) (v : V) :
  Dict.get d k = Some v -> In (k, v) d.
Proof.
  induction d as [|[k' v'] d IH]; simpl; [discriminate|].
  destruct (String.eqb_spec k k') as [->|_].
  - intro H. injection H as ->. now left.
  - intro H. right. now apply IH.
Qed.

Lemma execute_tool_raised (tools : registry) (name : string)
    (info : Tool.info) (kwargs : Dict.t pyval) (e : exn) (w : list event) :
  Dict.get tools name = Some info ->
  Tool.function info kwargs = Raised e ->
  exn_ordinary e = true ->
  execute_tool_body tools name kwargs w
  = (Returned ("Error executing " ++ name ++ ": " ++ exn_msg e)%string,
     w ++ [Invoke name kwargs]).
Proof.
  intros Hget Hf Hord. unfold execute_tool_body. rewrite Hget.
  unfold try_except, bind, invoke. rewrite Hf, Hord. reflexivity.
Qed.

Lemma signature_cases (name : string) (sig : signature) :
  Dict.get signatures name = Some sig ->
  In (name, sig) signatures.
Proof. apply get_In. Qed.

Ltac each_signature H :=
  apply signature_cases in H; simpl in H;
  repeat (destruct H as [H|H]; [injection H as <- <-|]); [..|destruct H].

Lemma tool_of_signature (R : Reports) (name : string) (sig : signature) :
  Dict.get signatures name = Some sig ->
  qualname sig = ("DataAnalyzer." ++ name)%string
  /\ exists info body,
       Dict.get (_register_tools (analyzer_of R)) name = Some info
       /\ Tool.function info = method sig body.
Proof.
  intro H. each_signature H; (split; [reflexivity|]);
    eexists; eexists; (split; [reflexivity|]); reflexivity.
Qed.

Lemma keywords_bind (sig : signature) (kwargs : Dict.t pyval) :
  Forall (fun k => accepts sig k = true /\ k <> "self") (Dict.keys kwargs) ->
  rejected_keyword sig kwargs = None.
Proof.
  induction kwargs as [|[k v] rest IH]; simpl; [reflexivity|].
  intro H. inversion H as [|? ? [Hacc Hself] Hrest]; subst.
  apply String.eqb_neq in Hself. rewrite Hself, Hacc. now apply IH.
Qed.






(** X18. A keyword that is no parameter of the tool's method, given first
    among keywords none of which names a parameter of [execute_tool] itself,
    ends the dispatch with the text of the [TypeError] the method's call
    raises; the method's body does not run, whatever the data. *)
Theorem unknown_keyword_is_refused
    (R : Reports) (name : string) (sig : signature)
    (k : string) (v : pyval) (rest : Dict.t pyval) (w : list event) :
  Dict.get signatures name = Some sig ->
  accepts sig k = false ->
  find reserved (Dict.keys ((k, v) :: rest)) = None ->
  execute_tool (_register_tools (analyzer_of R)) name ((k, v) :: rest) w
  = (Returned ("Error executing " ++ name ++ ": DataAnalyzer." ++ name
               ++ "() got an unexpected keyword argument '" ++ k ++ "'")%string,
     w ++ [Invoke name ((k, v) :: rest)]).
Proof.
  intros Hsig Hacc Hkeys.
  destruct (tool_of_signature R name sig Hsig)
    as [Hq (info & body & Hget & Hf)].
  assert (Hself : String.eqb k "self" = false).
  { cbn [Dict.keys map fst find] in Hkeys.
    destruct (reserved k) eqn:Hres; [discriminate|].
    unfold reserved in Hres. now apply orb_false_iff in Hres. }
  unfold execute_tool. rewrite Hkeys.
  rewrite (execute_tool_raised _ name info ((k, v) :: rest)
             (TypeError (qualname sig
                         ++ "() got an unexpected keyword argument '"
                         ++ k ++ "'")%string) w Hget).
  - rewrite Hq. reflexivity.
  - rewrite Hf. unfold method. cbn [rejected_keyword].
    now rewrite Hself, Hacc.
  - reflexivity.
Qed.

Lemma unknown_keyword_is_refused_witness :
  execute_tool (_register_tools (analyzer_of demo_reports))
    "get_dataset_summary" [("limit", PInt 10)] []
  = (Returned
       "Error executing get_dataset_summary: DataAnalyzer.get_dataset_summary() got an unexpected keyword argument 'limit'",
     [Invoke "get_dataset_summary" [("limit", PInt 10)]]).
Proof.
  apply (unknown_keyword_is_refused demo_reports "get_dataset_summary"
           (Signature "DataAnalyzer.get_dataset_summary" None [])
           "limit" (PInt 10) [] []).
  - reflexivity.
  - reflexivity.
  - reflexivity.
Defined.





Lemma period_keywords_bind (kwargs : Dict.t pyval) :
  Forall (fun k => In k ["month"; "year"; "start_date"; "end_date"])
         (Dict.keys kwargs) ->
  rejected_keyword
    (Signature "DataAnalyzer.analyze_by_time_period" None
               ["month"; "year"; "start_date"; "end_date"]) kwargs
  = None.
Proof.
  intro H. apply keywords_bind. revert H. apply Forall_impl.
  intros k Hk. simpl in Hk.
  destruct Hk as [<-|[<-|[<-|[<-|[]]]]]; (split; [reflexivity|discriminate]).
Qed.

(** X21. [analyze_by_time_period] looks the month up by its lower-case form
    among the twelve names and their abbreviations: any other non-empty text
    is answered with the invalid-month text naming it as given, whatever the
    other arguments and the data. *)
Theorem unknown_month_is_reported
    (R : Reports) (kwargs : Dict.t pyval) (m : string) :
  Forall (fun k => In k ["month"; "year"; "start_date"; "end_date"])
         (Dict.keys kwargs) ->
  Dict.get kwargs "month" = Some (PStr m) ->
  m <> EmptyString ->
  Dict.get month_mapping (lower m) = None ->
  analyze_by_time_period (analyzer_of R) kwargs
  = Returned (Text ("Invalid month: " ++ m
                    ++ ". Use full name or 3-letter abbreviation.")%string).
Proof.
  intros Hkeys Hget Hne Hmap. cbn. unfold method.
  rewrite (period_keywords_bind kwargs Hkeys). cbn [required].
  unfold analyze_by_time_period_body, argument. rewrite Hget.
  cbn [truthy lower_of]. apply String.eqb_neq in Hne. rewrite Hne.
  cbn [negb]. now rewrite Hmap.
Qed.

Lemma unknown_month_is_reported_witness :
  analyze_by_time_period (analyzer_of demo_reports)
    [("month", PStr "Octobre"); ("year", PInt 2024)]
  = Returned (Text "Invalid month: Octobre. Use full name or 3-letter abbreviation.").
Proof.
  apply (unknown_month_is_reported demo_reports
           [("month", PStr "Octobre"); ("year", PInt 2024)] "Octobre").
  - repeat constructor; simpl; tauto.
  - reflexivity.
  - discriminate.
  - reflexivity.
Defined.

(** X22. A month given by its number, which the parser coerces to an integer,
    is not looked up: the method raises the [AttributeError] of
    [month.lower()], whatever the other arguments and the data. *)
Theorem numeric_month_raises
    (R : Reports) (kwargs : Dict.t pyval) (z : Z) :
  Forall (fun k => In k ["month"; "year"; "start_date"; "end_date"])
         (Dict.keys kwargs) ->
  Dict.get kwargs "month" = Some (PInt z) ->
  z <> 0%Z ->
  analyze_by_time_period (analyzer_of R) kwargs
  = Raised (AttributeError "'int' object has no attribute 'lower'").
Proof.
  intros Hkeys Hget Hz. cbn. unfold method.
  rewrite (period_keywords_bind kwargs Hkeys). cbn [required].
  unfold analyze_by_time_period_body, argument. rewrite Hget.
  cbn [truthy lower_of]. apply Z.eqb_neq in Hz. now rewrite Hz.
Qed.

Lemma numeric_month_raises_witness :
  analyze_by_time_period (analyzer_of demo_reports)
    [("month", PInt 10); ("year", PInt 2024)]
  = Raised (AttributeError "'int' object has no attribute 'lower'").
Proof.
  apply (numeric_month_raises demo_reports
           [("month", PInt 10); ("year", PInt 2024)] 10%Z).
  - repeat constructor; simpl; tauto.
  - reflexivity.
  - discriminate.
Defined.

(** ** What a batch does to the outside *)

Lemma batch_events_clock (E : env) (tools : registry)
    (calls : list tool_call) :
  forall k, count is_now (batch_events E tools k calls) = List.length calls.
Proof.
  induction calls as [|c cs IH]; intro k; simpl; [reflexivity|].
  unfold count in *. simpl. rewrite filter_app, length_app, IH.
  now destruct (Dict.get tools (tool_name c)).
Qed.

Lemma batch_events_invocations (E : env) (tools : registry)
    (calls : list tool_call) :
  forall k,
    filter is_invoke (batch_events E tools k calls)
    = map invocation (filter (registered tools) calls).
Proof.
  induction calls as [|c cs IH]; intro k; simpl; [reflexivity|].
  rewrite filter_app, IH. unfold registered at 2, Dict.mem.
  now destruct (Dict.get tools (tool_name c)).
Qed.

(** X5. Outside the two ways an exception can escape the dispatcher, a batch
    returns and only adds events: the clock is read once per invocation, the
    callables run are those of the invocations with a registered name, in
    input order and on the parsed arguments, and the LLM is not called. *)
Theorem execute_tool_calls_effects (E : env) (tools : registry)
    (calls : list tool_call) (w : list event) :
  Forall (dispatchable tools) calls ->
  exists (result : string * list log_entry) (added : list event),
    execute_tool_calls E tools calls w = (Returned result, w ++ added)
    /\ count is_now added = List.length calls
    /\ count is_generate added = 0
    /\ filter is_invoke added
       = map invocation (filter (registered tools) calls).
Proof.
  intro Hok.
  destruct (execute_tool_calls_spec E tools calls w Hok) as [Hrun _].
  eexists. exists (batch_events E tools (count is_now w) calls).
  split; [exact Hrun|]. split; [apply batch_events_clock|].
  split; [apply batch_events_no_generate | apply batch_events_invocations].
Qed.

Lemma demo_dispatchable (name : string) (kwargs : Dict.t pyval) :
  find reserved (Dict.keys kwargs) = None ->
  dispatchable (_register_tools demo_analyzer) (ToolCall name kwargs).
Proof.
  intro Hkeys. split; [exact Hkeys|].
  cbn [tool_name parameters _register_tools Dict.get].
  intros info e.
  repeat (match goal with
          | |- context [String.eqb name ?k] => destruct (String.eqb name k)
          end;
          [intro H; injection H as <-; cbn; intro H; try discriminate H;
           injection H as <-; reflexivity |]).
  discriminate.
Qed.

Lemma execute_tool_calls_effects_witness :
  exists result added,
    execute_tool_calls summary_env (_register_tools demo_analyzer)
      [ToolCall "get_dataset_summary" []; ToolCall "plot_chart" [];
       ToolCall "analyze_route_performance" [("route", PStr "Route A")]] []
    = (Returned result, [] ++ added)
    /\ count is_now added = 3
    /\ count is_generate added = 0
    /\ filter is_invoke added
       = [Invoke "get_dataset_summary" [];
          Invoke "analyze_route_performance" [("route", PStr "Route A")]].
Proof.
  apply (execute_tool_calls_effects summary_env
           (_register_tools demo_analyzer)
           [ToolCall "get_dataset_summary" []; ToolCall "plot_chart" [];
            ToolCall "analyze_route_performance"
              [("route", PStr "Route A")]] []).
  repeat constructor; now apply demo_dispatchable.
Defined.

Lemma parse_tool_calls_per_occurrence_witness :
  parse_tool_calls
    "Let me look. TOOL_CALL: analyze_route_performance(route='Route A') and TOOL_CALL: analyze_delays()"
  = Returned [ToolCall "analyze_route_performance" [("route", PStr "Route A")];
              ToolCall "analyze_delays" []].
Proof.
  destruct (parse_tool_calls_per_occurrence
              "Let me look. TOOL_CALL: analyze_route_performance(route='Route A') and TOOL_CALL: analyze_delays()"
              [("analyze_route_performance", "route='Route A'");
               ("analyze_delays", "")]
              (findall_tool_pattern_occurrences _))
    as [H _].
  rewrite H. reflexivity.
Defined.

Lemma process_message_with_tool_calls_witness :
  fst (process_message summary_env demo_agent "How many shipments are there?"
         [] [])
  = Returned ("There are 120 shipments.",
              Some ("**Tool: get_dataset_summary**" ++ nl ++ nl
                    ++ "Total shipments: 120")%string,
              [LogEntry "get_dataset_summary" [] "2024-10-05T09:30:00.000125"]).
Proof.
  destruct (process_message_with_tool_calls summary_env demo_agent
              "How many shipments are there?" [] []
              "TOOL_CALL: get_dataset_summary()" "There are 120 shipments."
              [ToolCall "get_dataset_summary" []])
    as [H _].
  - reflexivity.
  - reflexivity.
  - discriminate.
  - repeat constructor. now apply demo_dispatchable.
  - reflexivity.
  - rewrite H. reflexivity.
Defined.
